(** * A chess rules engine: pieces, board and game of [main.py]

    Shallow embedding of the piece classes ([King] ... [Pawn]), of class
    [Board] and of class [Game], with Python's exceptions kept explicit. *)

From Stdlib Require Import ZArith Lia Bool String.
From stdpp Require Import base option list.

Local Open Scope Z_scope.

(** ** Colours, pieces, positions *)

Inductive Color := WHITE | BLACK.

(** The six concrete subclasses of [Piece]; [piece.__class__] is the tag. *)
Inductive Kind := King | Queen | Rook | Bishop | Knight | Pawn.

(** An instance of a piece class: its class and the [color] attribute set
    by [Piece.__init__]. *)
Record Piece := mkPiece { kind : Kind; color : Color }.

(** A position is a 2-tuple of Python integers. *)
Definition Pos : Type := Z * Z.

Definition Color_eqb (a b : Color) : bool :=
  match a, b with
  | WHITE, WHITE | BLACK, BLACK => true
  | _, _ => false
  end.

Definition Pos_eqb (p q : Pos) : bool :=
  (fst p =? fst q) && (snd p =? snd q).

(** ** Exceptions and results *)

(** The two exceptions the code can run into: a failed attribute lookup
    ([cls] is the class of the object, [attr] the name looked up) and a
    list index out of range. *)
Inductive exn :=
| AttributeError (cls attr : string)
| IndexError.

Inductive res (A : Type) :=
| Ret (a : A)
| Raise (e : exn).
Arguments Ret {A} a.
Arguments Raise {A} e.

#[global] Instance res_ret : MRet res := fun A a => Ret a.
#[global] Instance res_bind : MBind res := fun A B k m =>
  match m with
  | Ret a => k a
  | Raise e => Raise e
  end.

(** ** Python lists *)

(** [l[i]]: a negative index counts from the end, and an index outside
    [-len, len) raises [IndexError]. *)
Definition norm_index {A} (l : list A) (i : Z) : res nat :=
  let n := Z.of_nat (length l) in
  let j := if i <? 0 then i + n else i in
  if (0 <=? j) && (j <? n) then Ret (Z.to_nat j) else Raise IndexError.

Definition getitem {A} (l : list A) (i : Z) : res A :=
  j ← norm_index l i;
  match l !! j with
  | Some x => Ret x
  | None => Raise IndexError
  end.

(** [l[i] = x] *)
Definition setitem {A} (l : list A) (i : Z) (x : A) : res (list A) :=
  j ← norm_index l i;
  Ret (<[j:=x]> l).

(** The grid: [self.board], a list of rows, each a list of squares. *)
Abbreviation Grid := (list (list (option Piece))).

(** [grid[r][c]] *)
Definition getitem2 (g : Grid) (p : Pos) : res (option Piece) :=
  row ← getitem g (fst p);
  getitem row (snd p).

(** [grid[r][c] = x]: the row object is fetched, then updated in place. *)
Definition setitem2 (g : Grid) (p : Pos) (x : option Piece) : res Grid :=
  row ← getitem g (fst p);
  row' ← setitem row (snd p) x;
  setitem g (fst p) row'.

(** The shape every [Board] keeps: eight rows of eight squares. *)
Definition wf_grid (g : Grid) : Prop :=
  length g = 8%nat /\ Forall (fun row => length row = 8%nat) g.

(** [0 <= pos[0] < 8 and 0 <= pos[1] < 8] *)
Definition in_range (p : Pos) : bool :=
  (0 <=? fst p) && (fst p <? 8) && (0 <=? snd p) && (snd p <? 8).

(** The content of a square, seen from outside the program: [None] off
    the grid. *)
Definition square (g : Grid) (p : Pos) : option (option Piece) :=
  if in_range p then g !! Z.to_nat (fst p) ≫= (.!! Z.to_nat (snd p)) else None.

(** ** What the pieces ask of a board

    [can_move(self, board, start_pos, end_pos)] receives the board as an
    argument and calls two methods on it, [board.is_occupied(pos)] and
    [board.get_piece(pos)]; which code runs is decided by the class of the
    object passed in. *)
Class BoardLike (B : Type) := {
  is_occupied : B -> Pos -> res bool;
  get_piece : B -> Pos -> res (option Piece);
}.

(** How a path walk ends: the loop condition fails at the destination, or
    the body returns [False] on an occupied square. *)
Inductive walk_exit := PathClear | PathBlocked.

(** A computation with a loop: [None] when the fuel does not suffice. *)
Definition comp (A : Type) : Type := option (res A).

Section Shared.
Context {B : Type} {cls : BoardLike B}.

(** [not board.is_occupied(end_pos) or
     board.get_piece(end_pos).color != self.color], the condition under
    which five of the six classes return [True]. *)
Definition free_or_enemy (self : Piece) (board : B) (end_pos : Pos) : res bool :=
  occ ← is_occupied board end_pos;
  if negb occ then Ret true
  else
    t ← get_piece board end_pos;
    match t with
    | Some q => Ret (negb (Color_eqb (color q) (color self)))
    | None => Raise (AttributeError "NoneType" "color")
    end.

(** [while (current_row, current_col) != (end_row, end_col):
       if board.is_occupied((current_row, current_col)): return False
       current_row += row_step; current_col += col_step] *)
Fixpoint walk (fuel : nat) (board : B) (current step end_pos : Pos)
  : comp walk_exit :=
  if Pos_eqb current end_pos then Some (Ret PathClear)
  else
    match fuel with
    | O => None
    | S fuel' =>
      match is_occupied board current with
      | Raise e => Some (Raise e)
      | Ret true => Some (Ret PathBlocked)
      | Ret false =>
        walk fuel' board (fst current + fst step, snd current + snd step)
             step end_pos
      end
    end.

(** The walk from [start_pos], one step in, followed by the test of the
    destination: the common tail of [Queen], [Rook] and [Bishop]. *)
Definition slide (fuel : nat) (self : Piece) (board : B)
    (start_pos step end_pos : Pos) : comp bool :=
  match walk fuel board (fst start_pos + fst step, snd start_pos + snd step)
             step end_pos with
  | None => None
  | Some (Raise e) => Some (Raise e)
  | Some (Ret PathBlocked) => Some (Ret false)
  | Some (Ret PathClear) => Some (free_or_enemy self board end_pos)
  end.
End Shared.

(** [0 if start == end else (1 if end > start else -1)] *)
Definition step_or_zero (start_x end_x : Z) : Z :=
  if start_x =? end_x then 0 else if end_x >? start_x then 1 else -1.

(** [1 if end > start else -1] *)
Definition step_nonzero (start_x end_x : Z) : Z :=
  if end_x >? start_x then 1 else -1.

Module King.
Section Methods.
Context {B : Type} {cls : BoardLike B}.
Definition can_move (self : Piece) (board : B) (start_pos end_pos : Pos)
  : res bool :=
  let '(start_row, start_col) := start_pos in
  let '(end_row, end_col) := end_pos in
  if (Z.abs (end_row - start_row) <=? 1) && (Z.abs (end_col - start_col) <=? 1)
  then free_or_enemy self board end_pos
  else Ret false.
End Methods.
End King.

Module Queen.
Section Methods.
Context {B : Type} {cls : BoardLike B}.
Definition can_move (fuel : nat) (self : Piece) (board : B)
    (start_pos end_pos : Pos) : comp bool :=
  let '(start_row, start_col) := start_pos in
  let '(end_row, end_col) := end_pos in
  if (start_row =? end_row) || (start_col =? end_col)
     || (Z.abs (end_row - start_row) =? Z.abs (end_col - start_col))
  then
    let row_step := step_or_zero start_row end_row in
    let col_step := step_or_zero start_col end_col in
    slide fuel self board start_pos (row_step, col_step) end_pos
  else Some (Ret false).
End Methods.
End Queen.

Module Rook.
Section Methods.
Context {B : Type} {cls : BoardLike B}.
Definition can_move (fuel : nat) (self : Piece) (board : B)
    (start_pos end_pos : Pos) : comp bool :=
  let '(start_row, start_col) := start_pos in
  let '(end_row, end_col) := end_pos in
  if (start_row =? end_row) || (start_col =? end_col)
  then
    let row_step := step_or_zero start_row end_row in
    let col_step := step_or_zero start_col end_col in
    slide fuel self board start_pos (row_step, col_step) end_pos
  else Some (Ret false).
End Methods.
End Rook.

Module Bishop.
Section Methods.
Context {B : Type} {cls : BoardLike B}.
Definition can_move (fuel : nat) (self : Piece) (board : B)
    (start_pos end_pos : Pos) : comp bool :=
  let '(start_row, start_col) := start_pos in
  let '(end_row, end_col) := end_pos in
  if Z.abs (end_row - start_row) =? Z.abs (end_col - start_col)
  then
    let row_step := step_nonzero start_row end_row in
    let col_step := step_nonzero start_col end_col in
    slide fuel self board start_pos (row_step, col_step) end_pos
  else Some (Ret false).
End Methods.
End Bishop.

Module Knight.
Section Methods.
Context {B : Type} {cls : BoardLike B}.
Definition can_move (self : Piece) (board : B) (start_pos end_pos : Pos)
  : res bool :=
  let '(start_row, start_col) := start_pos in
  let '(end_row, end_col) := end_pos in
  if ((Z.abs (end_row - start_row) =? 2) && (Z.abs (end_col - start_col) =? 1))
     || ((Z.abs (end_row - start_row) =? 1) && (Z.abs (end_col - start_col) =? 2))
  then free_or_enemy self board end_pos
  else Ret false.
End Methods.
End Knight.

Module Pawn.
Section Methods.
Context {B : Type} {cls : BoardLike B}.

(** [(self.color == Color.WHITE and start_row == 1) or
     (self.color == Color.BLACK and start_row == 6)] *)
Definition on_home_row (self : Piece) (start_row : Z) : bool :=
  (Color_eqb (color self) WHITE && (start_row =? 1))
  || (Color_eqb (color self) BLACK && (start_row =? 6)).

Definition can_move (self : Piece) (board : B) (start_pos end_pos : Pos)
  : res bool :=
  let '(start_row, start_col) := start_pos in
  let '(end_row, end_col) := end_pos in
  let row_step := if Color_eqb (color self) WHITE then 1 else -1 in
  if start_col =? end_col then
    if start_row + row_step =? end_row then
      occ ← is_occupied board end_pos;
      Ret (negb occ)
    else if (start_row + 2 * row_step =? end_row) && on_home_row self start_row
    then
      mid ← is_occupied board (start_row + row_step, start_col);
      if negb mid then
        occ ← is_occupied board end_pos;
        Ret (negb occ)
      else Ret false
    else Ret false
  else
    if (Z.abs (start_col - end_col) =? 1) && (start_row + row_step =? end_row)
    then
      target_piece ← get_piece board end_pos;
      match target_piece with
      | Some q => Ret (negb (Color_eqb (color q) (color self)))
      | None => Ret false
      end
    else Ret false.
End Methods.
End Pawn.

(** [piece.can_move(board, start_pos, end_pos)]: the method of the class of
    [piece]. *)
Definition can_move {B : Type} {cls : BoardLike B} (fuel : nat) (piece : Piece)
    (board : B) (start_pos end_pos : Pos) : comp bool :=
  match kind piece with
  | King => Some (King.can_move piece board start_pos end_pos)
  | Queen => Queen.can_move fuel piece board start_pos end_pos
  | Rook => Rook.can_move fuel piece board start_pos end_pos
  | Bishop => Bishop.can_move fuel piece board start_pos end_pos
  | Knight => Some (Knight.can_move piece board start_pos end_pos)
  | Pawn => Some (Pawn.can_move piece board start_pos end_pos)
  end.

(** ** class Board *)

Module Board.
(** A [Board] object has one attribute, [self.board]. *)
Record t := mk { board : Grid }.

(** [[[None for _ in range(8)] for _ in range(8)]] *)
Definition empty_grid : Grid := replicate 8 (replicate 8 None).

(** [self.board[r][c] = K(colour)] *)
Definition put (p : Pos) (k : Kind) (c : Color) (g : Grid) : res Grid :=
  setitem2 g p (Some (mkPiece k c)).

(** [for i in range(8): self.board[row][i] = Pawn(colour)] *)
Fixpoint put_pawns (row : Z) (c : Color) (cols : list Z) (g : Grid) : res Grid :=
  match cols with
  | [] => Ret g
  | i :: rest => g' ← put (row, i) Pawn c g; put_pawns row c rest g'
  end.

Definition range8 : list Z := [0; 1; 2; 3; 4; 5; 6; 7].

(** The assignments of [setup_pieces], in the order of the source.  (An
    exception would leave the squares written so far in place; on an
    eight by eight grid none is raised, see [setup_pieces_total].) *)
Definition setup_grid (g : Grid) : res Grid :=
  g ← put (0, 0) Rook WHITE g;
  g ← put (0, 1) Knight WHITE g;
  g ← put (0, 2) Bishop WHITE g;
  g ← put (0, 3) Queen WHITE g;
  g ← put (0, 4) King WHITE g;
  g ← put (0, 5) Bishop WHITE g;
  g ← put (0, 6) Knight WHITE g;
  g ← put (0, 7) Rook WHITE g;
  g ← put_pawns 1 WHITE range8 g;
  g ← put (7, 0) Rook BLACK g;
  g ← put (7, 1) Knight BLACK g;
  g ← put (7, 2) Bishop BLACK g;
  g ← put (7, 3) Queen BLACK g;
  g ← put (7, 4) King BLACK g;
  g ← put (7, 5) Bishop BLACK g;
  g ← put (7, 6) Knight BLACK g;
  g ← put (7, 7) Rook BLACK g;
  put_pawns 6 BLACK range8 g.

Definition setup_pieces (self : t) : res t :=
  g ← setup_grid (board self); Ret (mk g).

(** [Board()]: an empty grid, then [setup_pieces]. *)
Definition init : res t := setup_pieces (mk empty_grid).

Section Methods.
(** How [is_occupied] and [get_piece] resolve on the object that
    [is_valid_move] hands to the piece (it hands [self]). *)
Context (cls : BoardLike t).

Definition is_valid_move (fuel : nat) (self : t) (start_pos end_pos : Pos)
  : comp bool :=
  if negb (in_range start_pos && in_range end_pos) then Some (Ret false)
  else
    match getitem2 (board self) start_pos with
    | Raise e => Some (Raise e)
    | Ret None => Some (Ret false)
    | Ret (Some piece) =>
      match can_move fuel piece self start_pos end_pos with
      | None => None
      | Some (Raise e) => Some (Raise e)
      | Some (Ret false) => Some (Ret false)
      | Some (Ret true) =>
        match getitem2 (board self) end_pos with
        | Raise e => Some (Raise e)
        | Ret (Some target_piece) =>
          if Color_eqb (color target_piece) (color piece)
          then Some (Ret false) else Some (Ret true)
        | Ret None => Some (Ret true)
        end
      end
    end.

(** The result together with the board afterwards. *)
Definition move_piece (fuel : nat) (self : t) (start_pos end_pos : Pos)
  : option (res bool * t) :=
  match is_valid_move fuel self start_pos end_pos with
  | None => None
  | Some (Raise e) => Some (Raise e, self)
  | Some (Ret false) => Some (Ret false, self)
  | Some (Ret true) =>
    match getitem2 (board self) start_pos with
    | Raise e => Some (Raise e, self)
    | Ret piece =>
      match setitem2 (board self) end_pos piece with
      | Raise e => Some (Raise e, self)
      | Ret g1 =>
        match setitem2 g1 start_pos None with
        | Raise e => Some (Raise e, mk g1)
        | Ret g2 => Some (Ret true, mk g2)
        end
      end
    end
  end.
End Methods.

(** The names defined in the body of class [Board], which has no base
    class, and the one attribute that [__init__] sets. *)
Definition methods : list string :=
  ["__init__"; "setup_pieces"; "is_valid_move"; "move_piece"; "to_json"]%string.

Definition attributes : list string := ["board"]%string.

(** [board.name(...)] on an instance of [Board]: the call goes through when
    the instance or the class has the name, and raises [AttributeError]
    when neither has. *)
Definition getattr {A} (name : string) (call : res A) : res A :=
  if existsb (String.eqb name) (attributes ++ methods)
  then call else Raise (AttributeError "Board" name).

(** Class [Board] as written.  Neither [is_occupied] nor [get_piece] is
    among its names, so no body stands behind either lookup. *)
Definition as_written : BoardLike t := {|
  is_occupied self pos :=
    getattr "is_occupied" (Raise (AttributeError "Board" "is_occupied"));
  get_piece self pos :=
    getattr "get_piece" (Raise (AttributeError "Board" "get_piece"));
|}.

(** [piece.__class__.__name__] *)
Definition class_name (k : Kind) : string :=
  match k with
  | King => "King"
  | Queen => "Queen"
  | Rook => "Rook"
  | Bishop => "Bishop"
  | Knight => "Knight"
  | Pawn => "Pawn"
  end.

(** [[[piece.__class__.__name__ if piece else None for piece in row]
      for row in self.board]]; a piece object is truthy, [None] is not. *)
Definition to_json (self : t) : list (list (option string)) :=
  map (map (fun piece : option Piece =>
              if piece is Some p then Some (class_name (kind p)) else None))
      (board self).
End Board.

(** The standard starting position. *)
Definition back_rank (c : Color) : list (option Piece) :=
  map (fun k => Some (mkPiece k c))
      [Rook; Knight; Bishop; Queen; King; Bishop; Knight; Rook].

Definition pawn_rank (c : Color) : list (option Piece) :=
  replicate 8 (Some (mkPiece Pawn c)).

Definition empty_rank : list (option Piece) := replicate 8 None.

Definition starting_position : Grid :=
  [back_rank WHITE; pawn_rank WHITE; empty_rank; empty_rank;
   empty_rank; empty_rank; pawn_rank BLACK; back_rank BLACK].

(** ** class Game *)

(** What a method hands back to its caller. *)
Inductive pyval := PyNone | PyStr (s : string).

Module Game.
Record t := mk { board : Board.t; current_turn : Color; game_over : bool }.

(** [Game()] *)
Definition init : res t :=
  b ← Board.init; Ret (mk b WHITE false).

Definition start_game (self : t) : res t :=
  b ← Board.setup_pieces (board self);
  Ret (mk b WHITE false).

(** The body is [pass]: nothing is read or written and the call
    evaluates to [None]. *)
Definition move (self : t) (player : Color) (start_pos end_pos : Pos)
  : pyval * t :=
  (PyNone, self).

Definition end_game (self : t) : pyval * t :=
  (PyStr "Game over.", mk (board self) (current_turn self) true).
End Game.

(** ** Other boards a piece can be handed *)

(** Modelled from the spec: [Board.is_occupied] and [Board.get_piece]
    (section 4.2), which the piece classes call and class [Board] does not
    define.  [is_occupied(pos)] is true iff the square holds a piece and
    does not range-check [pos]; [get_piece(pos)] returns the occupant or
    empty; an index outside the grid that reaches the storage is an
    indexing fault. *)
Definition completed : BoardLike Board.t := {|
  is_occupied self pos :=
    match square (Board.board self) pos with
    | Some sq => Ret (if sq is Some _ then true else false)
    | None => Raise IndexError
    end;
  get_piece self pos :=
    match square (Board.board self) pos with
    | Some sq => Ret sq
    | None => Raise IndexError
    end;
|}.

(** A board object that answers every query with "empty", on and off the
    grid: what a duck-typed argument of [can_move] may also be. *)
Definition boundless : BoardLike unit := {|
  is_occupied _ _ := Ret false;
  get_piece _ _ := Ret None;
|}.

(** A board class whose queries never lie: each of them either raises or
    tells what the square holds.  Class [Board] as written is one (its
    queries always raise) and so is the completed one. *)
Definition truthful (cls : BoardLike Board.t) : Prop :=
  forall (self : Board.t) (pos : Pos),
    (forall b, is_occupied self pos = Ret b ->
       exists sq, square (Board.board self) pos = Some sq
                  /\ b = (if sq is Some _ then true else false))
    /\ (forall t, get_piece self pos = Ret t ->
         square (Board.board self) pos = Some t).

(** ** A position in mid-game, and sequences of requests *)

(** The grid after White's pawn went from (1,4) to (3,4) and nothing else
    happened. *)
Definition advanced_pawn_grid : Grid :=
  <[3%nat := <[4%nat := Some (mkPiece Pawn WHITE)]> empty_rank]>
    (<[1%nat := <[4%nat := None]> (pawn_rank WHITE)]> starting_position).

(** What can be asked of a game besides [start_game]. *)
Inductive request :=
| ReqMove (player : Color) (start_pos end_pos : Pos)
| ReqEnd.

Definition serve (self : Game.t) (r : request) : Game.t :=
  match r with
  | ReqMove player start_pos end_pos => snd (Game.move self player start_pos end_pos)
  | ReqEnd => snd (Game.end_game self)
  end.

Definition serve_all (self : Game.t) (rs : list request) : Game.t :=
  foldl serve self rs.

(** ** The rules in the words of the specification

    Stated from section 4.1 of the specification, to be compared with what
    the classes compute on the completed board. *)

(** White advances toward increasing rows, Black toward decreasing rows. *)
Definition forward (c : Color) : Z := if c is WHITE then 1 else -1.

(** Row 1 for White, row 6 for Black. *)
Definition home_row (c : Color) : Z := if c is WHITE then 1 else 6.

(** Straight advance: same column, one step forward, destination empty. *)
Definition spec_pawn_advance (g : Grid) (c : Color) (s e : Pos) : Prop :=
  snd e = snd s /\ fst e = fst s + forward c /\ square g e = Some None.

(** Double advance: same column, two steps forward, from the home row,
    intermediate and destination squares empty. *)
Definition spec_pawn_double (g : Grid) (c : Color) (s e : Pos) : Prop :=
  snd e = snd s /\ fst e = fst s + 2 * forward c /\ fst s = home_row c
  /\ square g (fst s + forward c, snd s) = Some None
  /\ square g e = Some None.

(** Diagonal capture: the column differs by one, one step forward, and the
    destination holds a piece of the other colour. *)
Definition spec_pawn_capture (g : Grid) (c : Color) (s e : Pos) : Prop :=
  Z.abs (snd s - snd e) = 1 /\ fst e = fst s + forward c
  /\ exists q, square g e = Some (Some q) /\ color q <> c.

(** The [k]-th square on the way from [s] toward [e]. *)
Definition toward (s e : Pos) (k : Z) : Pos :=
  (fst s + k * Z.sgn (fst e - fst s), snd s + k * Z.sgn (snd e - snd s)).

(** The number of steps from [s] to [e] along a row, column or diagonal. *)
Definition distance (s e : Pos) : Z :=
  Z.max (Z.abs (fst e - fst s)) (Z.abs (snd e - snd s)).

Definition same_line (s e : Pos) : Prop :=
  fst s = fst e \/ snd s = snd e.

Definition same_diagonal (s e : Pos) : Prop :=
  Z.abs (fst e - fst s) = Z.abs (snd e - snd s).

(** Some square strictly between [s] and [e] holds a piece. *)
Definition spec_blocked (g : Grid) (s e : Pos) : Prop :=
  exists k q, 1 <= k < distance s e /\ square g (toward s e k) = Some (Some q).

(** ** Calls on a game, [start_game] included *)

Inductive call :=
| CallStart
| CallMove (player : Color) (start_pos end_pos : Pos)
| CallEnd.

Definition perform (self : Game.t) (c : call) : res Game.t :=
  match c with
  | CallStart => Game.start_game self
  | CallMove player start_pos end_pos =>
    Ret (snd (Game.move self player start_pos end_pos))
  | CallEnd => Ret (snd (Game.end_game self))
  end.

Fixpoint perform_all (self : Game.t) (cs : list call) : res Game.t :=
  match cs with
  | [] => Ret self
  | c :: cs' => self' ← perform self c; perform_all self' cs'
  end.

(** ** The functions of the module level *)

(** What such a function returns: [{"message": v}], [{"board": v}] or
    [None]. *)
Inductive response :=
| Message (v : pyval)
| BoardView (v : list (list (option string)))
| NoResponse.

(** How a call of such a function fails: the global name is not bound, or
    an exception comes up from the method called. *)
Inductive failure :=
| NameError (name : string)
| Uncaught (e : exn).

(** The request body of [move]: two tuples. *)
Record Move := mkMove { start_pos : Pos; end_pos : Pos }.

Module Endpoints.
(** The functions read the global name [game]; [globals] is what it is
    bound to when they run, [None] when it is not bound.  None of them
    assigns it. *)
Definition globals : Type := option Game.t.

(** The module binds [Color], [Move], the piece classes, [Board], [Game],
    [app] and the four functions, and never [game]. *)
Definition as_written : globals := None.

(** [game.start_game()], then the message.  (An exception from
    [setup_pieces] comes up uncaught; on an eight by eight board there is
    none.) *)
Definition start_game (game : globals) : (failure + response) * globals :=
  match game with
  | None => (inl (NameError "game"), game)
  | Some g =>
    match Game.start_game g with
    | Raise e => (inl (Uncaught e), game)
    | Ret g' => (inr (Message (PyStr "Game started.")), Some g')
    end
  end.

Definition move (game : globals) (move : Move) : (failure + response) * globals :=
  (inr NoResponse, game).

Definition end_game (game : globals) : (failure + response) * globals :=
  match game with
  | None => (inl (NameError "game"), game)
  | Some g =>
    let '(result, g') := Game.end_game g in
    (inr (Message result), Some g')
  end.

Definition get_board (game : globals) : (failure + response) * globals :=
  match game with
  | None => (inl (NameError "game"), game)
  | Some g => (inr (BoardView (Board.to_json (Game.board g))), game)
  end.
End Endpoints.

(** A request to the module: which function is called. *)
Inductive endpoint :=
| PostStartGame
| PostMove (m : Move)
| PostEndGame
| GetBoard.

Definition handle (game : Endpoints.globals) (r : endpoint)
  : (failure + response) * Endpoints.globals :=
  match r with
  | PostStartGame => Endpoints.start_game game
  | PostMove m => Endpoints.move game m
  | PostEndGame => Endpoints.end_game game
  | GetBoard => Endpoints.get_board game
  end.

(** The answers to a sequence of requests, in order, and the binding of
    [game] afterwards. *)
Fixpoint handle_all (game : Endpoints.globals) (rs : list endpoint)
  : list (failure + response) * Endpoints.globals :=
  match rs with
  | [] => ([], game)
  | r :: rs' =>
    let '(a, game') := handle game r in
    let '(answers, game'') := handle_all game' rs' in
    (a :: answers, game'')
  end.

(** ** Counting and collecting *)

(** The pieces on the grid, row by row. *)
Definition pieces (g : Grid) : list Piece :=
  g ≫= (fun row => row ≫= option_list).

(** A sequence of attempted moves on a board, each with the same fuel; the
    attempts that fail leave the board as [move_piece] leaves it. *)
Fixpoint attempt_all (cls : BoardLike Board.t) (fuel : nat) (self : Board.t)
    (ms : list (Pos * Pos)) : option Board.t :=
  match ms with
  | [] => Some self
  | (s, e) :: ms' =>
    match Board.move_piece cls fuel self s e with
    | None => None
    | Some (_, self') => attempt_all cls fuel self' ms'
    end
  end.

(** The geometry each class tests before it asks the board anything. *)
Definition geometry (self : Piece) (s e : Pos) : Prop :=
  let dr := fst e - fst s in
  let dc := snd e - snd s in
  match kind self with
  | King => Z.abs dr <= 1 /\ Z.abs dc <= 1
  | Queen => same_line s e \/ same_diagonal s e
  | Rook => same_line s e
  | Bishop => same_diagonal s e /\ s <> e
  | Knight => (Z.abs dr = 2 /\ Z.abs dc = 1) \/ (Z.abs dr = 1 /\ Z.abs dc = 2)
  | Pawn =>
    (dc = 0 /\ dr = forward (color self))
    \/ (dc = 0 /\ dr = 2 * forward (color self)
        /\ fst s = home_row (color self))
    \/ (Z.abs dc = 1 /\ dr = forward (color self))
  end.

(** The squares a class asks the board about, at most: the destination,
    and for the sliding pieces and the pawn's double advance the squares
    on the way. *)
Definition asked (self : Piece) (s e : Pos) (p : Pos) : Prop :=
  p = e
  \/ match kind self with
     | Queen | Rook | Bishop => exists k, 1 <= k < distance s e /\ p = toward s e k
     | Pawn => p = (fst s + forward (color self), snd s)
     | King | Knight => False
     end.

(** ** What the added properties speak of *)

(** Two boards answer alike about the square [p]. *)
Definition alike {B1 B2 : Type} {c1 : BoardLike B1} {c2 : BoardLike B2}
    (b1 : B1) (b2 : B2) (p : Pos) : Prop :=
  is_occupied b1 p = is_occupied b2 p /\ get_piece b1 p = get_piece b2 p.

(** The grid with the colours left out. *)
Definition kinds (g : Grid) : list (list (option Kind)) :=
  map (map (option_map kind)) g.

Definition is_start (c : call) : bool := if c is CallStart then true else false.

(** The answer to a request while [game] is not bound. *)
Definition answer_unbound (r : endpoint) : failure + response :=
  match r with
  | PostMove _ => inr NoResponse
  | _ => inl (NameError "game")
  end.

(** The answer to a request while [game] is bound to a game on the
    starting position. *)
Definition answer_fresh (r : endpoint) : failure + response :=
  match r with
  | PostStartGame => inr (Message (PyStr "Game started."))
  | PostMove _ => inr NoResponse
  | PostEndGame => inr (Message (PyStr "Game over."))
  | GetBoard => inr (BoardView (Board.to_json (Board.mk starting_position)))
  end.

(** The destination is empty or holds a piece of the other colour. *)
Definition free_or_other (g : Grid) (self : Piece) (e : Pos) : Prop :=
  square g e = Some None
  \/ exists t, square g e = Some (Some t) /\ color t <> color self.

(** The other colour, and a piece of the other colour. *)
Definition flip (c : Color) : Color := if c is WHITE then BLACK else WHITE.

Definition flip_piece (p : Piece) : Piece := mkPiece (kind p) (flip (color p)).

(** The square seen from the other side of the board. *)
Definition mirror (p : Pos) : Pos := (7 - fst p, snd p).

(** [b'] is [b] seen from the other side with the colours exchanged, as
    far as the queries tell. *)
Definition mirrored {B B' : Type} {c : BoardLike B} {c' : BoardLike B'}
    (b : B) (b' : B') : Prop :=
  forall p,
    is_occupied b' (mirror p) = is_occupied b p
    /\ get_piece b' (mirror p)
       = match get_piece b p with
         | Ret t => Ret (option_map flip_piece t)
         | Raise x => Raise x
         end.

(** * Properties *)

(** ** Equality tests *)

Lemma Color_eqb_eq a b : Color_eqb a b = true <-> a = b.
Proof. destruct a, b; simpl; split; congruence. Qed.

Lemma Color_eqb_refl a : Color_eqb a a = true.
Proof. by destruct a. Qed.

Lemma Pos_eqb_eq p q : Pos_eqb p q = true <-> p = q.
Proof.
  destruct p as [a b], q as [c d]; unfold Pos_eqb; simpl.
  rewrite andb_true_iff, !Z.eqb_eq. split; [intros [-> ->]; done | intros [= -> ->]; done].
Qed.

Lemma Pos_eqb_refl p : Pos_eqb p p = true.
Proof. by apply Pos_eqb_eq. Qed.

Lemma Pos_eqb_neq p q : Pos_eqb p q = false <-> p <> q.
Proof.
  rewrite <- Pos_eqb_eq. destruct (Pos_eqb p q); split; congruence.
Qed.

(** ** Lists and grids *)

Lemma norm_index_in_range {A} (l : list A) (i : Z) :
  0 <= i < Z.of_nat (length l) -> norm_index l i = Ret (Z.to_nat i).
Proof.
  intros Hi. unfold norm_index.
  destruct (Z.ltb_spec i 0); [lia|].
  destruct (Z.leb_spec 0 i); [|lia].
  destruct (Z.ltb_spec i (Z.of_nat (length l))); [done|lia].
Qed.

Lemma getitem_in_range {A} (l : list A) (i : Z) :
  0 <= i < Z.of_nat (length l) ->
  exists x, l !! Z.to_nat i = Some x /\ getitem l i = Ret x.
Proof.
  intros Hi. unfold getitem. rewrite norm_index_in_range by done. simpl.
  destruct (lookup_lt_is_Some_2 l (Z.to_nat i)) as [x Hx]; [lia|].
  exists x. by rewrite Hx.
Qed.

Lemma setitem_in_range {A} (l : list A) (i : Z) (x : A) :
  0 <= i < Z.of_nat (length l) -> setitem l i x = Ret (<[Z.to_nat i:=x]> l).
Proof.
  intros Hi. unfold setitem. by rewrite norm_index_in_range.
Qed.

Lemma in_range_spec (p : Pos) :
  in_range p = true <-> 0 <= fst p < 8 /\ 0 <= snd p < 8.
Proof. unfold in_range. rewrite !andb_true_iff, !Z.leb_le, !Z.ltb_lt. lia. Qed.

Lemma wf_grid_row (g : Grid) (r : nat) (row : list (option Piece)) :
  wf_grid g -> g !! r = Some row -> length row = 8%nat.
Proof.
  intros [_ Hrows] Hr. rewrite Forall_forall in Hrows.
  apply Hrows, list_elem_of_lookup. eauto.
Qed.

(** On a well-formed grid, reading an in-range square succeeds and yields
    what [square] shows. *)
Lemma getitem2_in_range (g : Grid) (p : Pos) :
  wf_grid g -> in_range p = true ->
  exists sq, square g p = Some sq /\ getitem2 g p = Ret sq.
Proof.
  intros Hwf Hp. pose proof Hp as Hp'. apply in_range_spec in Hp' as [Hr Hc].
  destruct Hwf as [Hlen Hrows].
  destruct (getitem_in_range g (fst p)) as (row & Hrow & Hget); [lia|].
  pose proof (wf_grid_row g _ row (conj Hlen Hrows) Hrow) as Hrl.
  destruct (getitem_in_range row (snd p)) as (sq & Hsq & Hget'); [lia|].
  exists sq. unfold square, getitem2. rewrite Hp, Hrow, Hget. simpl.
  by rewrite Hsq, Hget'.
Qed.

Lemma square_Some_in_range (g : Grid) (p : Pos) sq :
  square g p = Some sq -> in_range p = true.
Proof. unfold square. by destruct (in_range p). Qed.

Lemma Pos_neq_nat (p q : Pos) :
  in_range p = true -> in_range q = true -> p <> q ->
  Z.to_nat (fst p) <> Z.to_nat (fst q) \/ Z.to_nat (snd p) <> Z.to_nat (snd q).
Proof.
  intros Hp%in_range_spec Hq%in_range_spec Hne.
  destruct p as [a b], q as [c d]; simpl in *.
  destruct (decide (a = c)) as [->|]; [|left; lia].
  right. intros Heq. apply Hne. f_equal. lia.
Qed.

(** Writing an in-range square of a well-formed grid succeeds, changes
    that square and no other, and keeps the shape. *)
Lemma setitem2_in_range (g : Grid) (p : Pos) (x : option Piece) :
  wf_grid g -> in_range p = true ->
  exists g', setitem2 g p x = Ret g' /\ wf_grid g'
    /\ square g' p = Some x
    /\ forall q, q <> p -> square g' q = square g q.
Proof.
  intros Hwf Hp. pose proof Hp as Hp'. apply in_range_spec in Hp' as [Hr Hc].
  pose proof Hwf as [Hlen Hrows].
  destruct (getitem_in_range g (fst p)) as (row & Hrow & Hget); [lia|].
  pose proof (wf_grid_row g _ row Hwf Hrow) as Hrl.
  exists (<[Z.to_nat (fst p) := <[Z.to_nat (snd p) := x]> row]> g).
  split; [|split; [|split]].
  - unfold setitem2. rewrite Hget. simpl.
    rewrite setitem_in_range by lia. simpl. by rewrite setitem_in_range by lia.
  - split; [by rewrite length_insert|].
    apply Forall_insert; [done|]. by rewrite length_insert.
  - unfold square. rewrite Hp.
    rewrite list_lookup_insert_eq by lia. simpl.
    by rewrite list_lookup_insert_eq by lia.
  - intros q Hq. unfold square. destruct (in_range q) eqn:Hqr; [|done].
    destruct (decide (Z.to_nat (fst p) = Z.to_nat (fst q))) as [Heq|Hne].
    + rewrite <- Heq. rewrite list_lookup_insert_eq by lia. rewrite Hrow. simpl.
      apply list_lookup_insert_ne.
      destruct (Pos_neq_nat q p Hqr Hp Hq) as [H1|H1]; congruence.
    + by rewrite list_lookup_insert_ne.
Qed.

Lemma length_8_inv {A} (l : list A) :
  length l = 8%nat -> exists a b c d e f g h, l = [a; b; c; d; e; f; g; h].
Proof.
  intros Hl. do 8 (destruct l as [|? l]; [done|]). destruct l; [|done].
  by repeat eexists.
Qed.

Lemma wf_grid_inv (g : Grid) :
  wf_grid g ->
  exists r0 r1 r2 r3 r4 r5 r6 r7,
    g = [r0; r1; r2; r3; r4; r5; r6; r7]
    /\ length r0 = 8%nat /\ length r1 = 8%nat /\ length r2 = 8%nat
    /\ length r3 = 8%nat /\ length r4 = 8%nat /\ length r5 = 8%nat
    /\ length r6 = 8%nat /\ length r7 = 8%nat.
Proof.
  intros [Hlen Hrows].
  destruct (length_8_inv g Hlen) as (r0&r1&r2&r3&r4&r5&r6&r7&->).
  exists r0, r1, r2, r3, r4, r5, r6, r7. split; [done|].
  repeat (apply Forall_cons in Hrows as [? Hrows]). tauto.
Qed.

Lemma starting_position_wf : wf_grid starting_position.
Proof. split; [done|]. repeat constructor. Qed.

(** ** [setup_pieces] *)

(** What [setup_pieces] does to an eight by eight grid: rows 0, 1, 6 and 7
    receive the pieces; rows 2 to 5 are not assigned and stay as they
    were. *)
Lemma setup_grid_rows (r0 r1 r2 r3 r4 r5 r6 r7 : list (option Piece)) :
  length r0 = 8%nat -> length r1 = 8%nat ->
  length r6 = 8%nat -> length r7 = 8%nat ->
  Board.setup_grid [r0; r1; r2; r3; r4; r5; r6; r7]
  = Ret [back_rank WHITE; pawn_rank WHITE; r2; r3; r4; r5;
         pawn_rank BLACK; back_rank BLACK].
Proof.
  intros H0 H1 H6 H7.
  destruct (length_8_inv r0 H0) as (?&?&?&?&?&?&?&?&->).
  destruct (length_8_inv r1 H1) as (?&?&?&?&?&?&?&?&->).
  destruct (length_8_inv r6 H6) as (?&?&?&?&?&?&?&?&->).
  destruct (length_8_inv r7 H7) as (?&?&?&?&?&?&?&?&->).
  reflexivity.
Qed.

Lemma setup_pieces_total (self : Board.t) :
  wf_grid (Board.board self) ->
  exists g', Board.setup_pieces self = Ret (Board.mk g') /\ wf_grid g'
    /\ (forall p, 2 <= fst p <= 5 -> square g' p = square (Board.board self) p)
    /\ Board.setup_pieces (Board.mk g') = Ret (Board.mk g').
Proof.
  intros Hwf. destruct self as [g]; simpl in *.
  destruct (wf_grid_inv g Hwf)
    as (r0&r1&r2&r3&r4&r5&r6&r7&->&H0&H1&H2&H3&H4&H5&H6&H7).
  eexists. unfold Board.setup_pieces; simpl Board.board.
  rewrite setup_grid_rows by done. split; [reflexivity|].
  split; [|split].
  - split; [done|]. repeat constructor; done.
  - intros [r c] Hr; simpl in Hr. unfold square.
    destruct (in_range (r, c)); [|done]. simpl fst.
    assert (r = 2 \/ r = 3 \/ r = 4 \/ r = 5) as [->|[->|[->| ->]]] by lia; done.
  - by rewrite setup_grid_rows.
Qed.

Lemma Board_init : Board.init = Ret (Board.mk starting_position).
Proof. reflexivity. Qed.

(** ** Class [Board] as written *)

(** C2. [Board] is asked for [is_occupied(pos)] and [get_piece(pos)] by the
    pieces, and provides neither: on every board and at every position the
    two lookups raise [AttributeError] instead of answering. *)
Theorem Board_provides_no_queries (self : Board.t) (pos : Pos) :
  is_occupied (BoardLike := Board.as_written) self pos
    = Raise (AttributeError "Board" "is_occupied")
  /\ get_piece (BoardLike := Board.as_written) self pos
    = Raise (AttributeError "Board" "get_piece").
Proof. split; reflexivity. Qed.

(** C1. On the fresh board [is_valid_move] does not return a boolean for
    the double advance of White's king pawn, from (1,4) to (3,4), nor for
    the bishop on (0,2) asked about its own square: the piece's [can_move]
    calls [board.is_occupied], the call raises, and nothing catches it. *)
Theorem is_valid_move_raises_on_fresh_board (fuel : nat) :
  Board.is_valid_move Board.as_written fuel (Board.mk starting_position)
    (1, 4) (3, 4)
  = Some (Raise (AttributeError "Board" "is_occupied"))
  /\ Board.is_valid_move Board.as_written (S fuel) (Board.mk starting_position)
      (0, 2) (0, 2)
    = Some (Raise (AttributeError "Board" "is_occupied")).
Proof. split; reflexivity. Qed.

(** C3. [setup_pieces] on the grid with White's pawn on (3,4) leaves that
    pawn where it is: the result is not the starting position. *)
Theorem setup_pieces_keeps_advanced_pawn :
  exists g',
    Board.setup_pieces (Board.mk advanced_pawn_grid) = Ret (Board.mk g')
    /\ square g' (3, 4) = Some (Some (mkPiece Pawn WHITE))
    /\ square starting_position (3, 4) = Some None
    /\ g' <> starting_position.
Proof.
  eexists. split; [vm_compute; reflexivity|].
  split; [reflexivity|]. split; [reflexivity|].
  vm_compute. discriminate.
Qed.

(** ** Class [Game] *)

(** C9. [Game.move] does nothing whatever the claimed player and the
    positions: board, turn and game-over flag are the ones before the call
    and the value handed back is [None], the same for every request. *)
Theorem Game_move_does_nothing (self : Game.t) (player : Color)
    (start_pos end_pos : Pos) :
  Game.move self player start_pos end_pos = (PyNone, self).
Proof. reflexivity. Qed.

Lemma serve_all_keeps_over (rs : list request) (self : Game.t) :
  Game.game_over self = true -> Game.game_over (serve_all self rs) = true.
Proof.
  revert self. induction rs as [|r rs IH]; intros self Hover; [done|].
  simpl. apply IH. by destruct r.
Qed.

(** From any game, [start_game] runs [setup_pieces] on the board and
    sets the turn to White and [game_over] to false, and doing it twice is
    doing it once; [end_game] sets [game_over], keeps board and turn, and
    answers "Game over."; after it [game_over] stays set through any
    requests other than [start_game]. *)
Theorem start_game_end_game (self : Game.t) :
  wf_grid (Board.board (Game.board self)) ->
  (exists b,
      Board.setup_pieces (Game.board self) = Ret b
      /\ Game.start_game self = Ret (Game.mk b WHITE false)
      /\ Game.start_game (Game.mk b WHITE false) = Ret (Game.mk b WHITE false))
  /\ Game.end_game self
     = (PyStr "Game over.",
        Game.mk (Game.board self) (Game.current_turn self) true)
  /\ forall rs, Game.game_over (serve_all (snd (Game.end_game self)) rs) = true.
Proof.
  intros Hwf. split; [|split].
  - destruct (setup_pieces_total _ Hwf) as (g' & Hset & _ & _ & Hidem).
    exists (Board.mk g'). unfold Game.start_game. simpl Game.board.
    rewrite Hset, Hidem. done.
  - reflexivity.
  - intros rs. by apply serve_all_keeps_over.
Qed.

Lemma start_game_end_game_witness :
  wf_grid starting_position
  /\ forall rs,
      Game.game_over
        (serve_all (snd (Game.end_game (Game.mk (Board.mk starting_position) BLACK false))) rs)
      = true.
Proof.
  split; [apply starting_position_wf|].
  apply (start_game_end_game (Game.mk (Board.mk starting_position) BLACK false)).
  apply starting_position_wf.
Defined.

(** C10. [start_game] on a game that is over, with Black to move and
    White's pawn advanced from (1,4) to (3,4), sets the turn to White and
    [game_over] to false and runs [setup_pieces], which puts a pawn back
    on (1,4) and leaves the one on (3,4): the board is not reset to the
    starting position, and a second [start_game] changes nothing more. *)
Theorem start_game_leaves_advanced_pawn :
  exists g',
    Game.start_game (Game.mk (Board.mk advanced_pawn_grid) BLACK true)
    = Ret (Game.mk (Board.mk g') WHITE false)
    /\ square advanced_pawn_grid (1, 4) = Some None
    /\ square g' (1, 4) = Some (Some (mkPiece Pawn WHITE))
    /\ square g' (3, 4) = Some (Some (mkPiece Pawn WHITE))
    /\ g' <> starting_position
    /\ Game.start_game (Game.mk (Board.mk g') WHITE false)
       = Ret (Game.mk (Board.mk g') WHITE false).
Proof.
  eexists. split; [vm_compute; reflexivity|].
  split; [vm_compute; reflexivity|]. split; [vm_compute; reflexivity|].
  split; [vm_compute; reflexivity|]. split; [vm_compute; discriminate|].
  vm_compute. reflexivity.
Qed.

(** ** [is_valid_move] and [move_piece], whatever the queries answer *)

Lemma is_valid_move_true_inv (cls : BoardLike Board.t) fuel self start_pos end_pos :
  Board.is_valid_move cls fuel self start_pos end_pos = Some (Ret true) ->
  in_range start_pos = true /\ in_range end_pos = true
  /\ exists piece,
      getitem2 (Board.board self) start_pos = Ret (Some piece)
      /\ can_move fuel piece self start_pos end_pos = Some (Ret true)
      /\ match getitem2 (Board.board self) end_pos with
         | Ret (Some target_piece) => Color_eqb (color target_piece) (color piece) = false
         | Ret None => True
         | Raise _ => False
         end.
Proof.
  unfold Board.is_valid_move.
  destruct (in_range start_pos) eqn:Hs; [|discriminate].
  destruct (in_range end_pos) eqn:He; [|discriminate]. simpl.
  destruct (getitem2 (Board.board self) start_pos) as [[piece|]|] eqn:Hget;
    try discriminate.
  destruct (can_move fuel piece self start_pos end_pos) as [[[|]|]|] eqn:Hcan;
    try discriminate.
  intros Hv. split; [done|]. split; [done|]. exists piece.
  split; [done|]. split; [done|].
  destruct (getitem2 (Board.board self) end_pos) as [[t|]|]; try discriminate; [|done].
  by destruct (Color_eqb (color t) (color piece)).
Qed.

(** The parts of [is_valid_move] that do not depend on the piece: a
    position off the grid and an empty start square are answered false;
    otherwise the answer of the piece decides, an exception included. *)
Lemma is_valid_move_out_of_range (cls : BoardLike Board.t) fuel self start_pos end_pos :
  in_range start_pos && in_range end_pos = false ->
  Board.is_valid_move cls fuel self start_pos end_pos = Some (Ret false).
Proof. intros Hr. unfold Board.is_valid_move. by rewrite Hr. Qed.

Lemma is_valid_move_on_grid (cls : BoardLike Board.t) fuel self start_pos end_pos :
  wf_grid (Board.board self) ->
  in_range start_pos = true -> in_range end_pos = true ->
  Board.is_valid_move cls fuel self start_pos end_pos
  = match square (Board.board self) start_pos with
    | Some (Some piece) =>
      match can_move fuel piece self start_pos end_pos with
      | Some (Ret true) =>
        match square (Board.board self) end_pos with
        | Some (Some target_piece) =>
          Some (Ret (negb (Color_eqb (color target_piece) (color piece))))
        | _ => Some (Ret true)
        end
      | r => r
      end
    | _ => Some (Ret false)
    end.
Proof.
  intros Hwf Hs He. unfold Board.is_valid_move. rewrite Hs, He. simpl.
  destruct (getitem2_in_range _ _ Hwf Hs) as (sqs & -> & ->).
  destruct (getitem2_in_range _ _ Hwf He) as (sqe & -> & ->).
  destruct sqs as [piece|]; [|done].
  destruct (can_move fuel piece self start_pos end_pos) as [[[|]|]|]; try done.
  destruct sqe as [t|]; [|done]. by destruct (Color_eqb _ _).
Qed.

(** No move from a square to itself passes [is_valid_move]: the square
    holds the mover, whose colour is its own. *)
Lemma is_valid_move_same_square (cls : BoardLike Board.t) fuel self pos :
  Board.is_valid_move cls fuel self pos pos <> Some (Ret true).
Proof.
  intros (_ & _ & piece & Hget & _ & Hend)%is_valid_move_true_inv.
  rewrite Hget in Hend. by rewrite Color_eqb_refl in Hend.
Qed.

(** C4. Whatever [is_occupied] and [get_piece] are: when [is_valid_move]
    returns true, [move_piece] returns true, the two positions differ,
    the start square is empty afterwards, the end square holds what the
    start square held, and every other square is as before; when
    [is_valid_move] returns false, [move_piece] returns false and the
    board is the same. *)
Theorem move_piece_frame (cls : BoardLike Board.t) (fuel : nat)
    (self : Board.t) (start_pos end_pos : Pos) :
  wf_grid (Board.board self) ->
  (Board.is_valid_move cls fuel self start_pos end_pos = Some (Ret true) ->
   exists self' piece,
     Board.move_piece cls fuel self start_pos end_pos = Some (Ret true, self')
     /\ wf_grid (Board.board self')
     /\ start_pos <> end_pos
     /\ square (Board.board self) start_pos = Some (Some piece)
     /\ square (Board.board self') start_pos = Some None
     /\ square (Board.board self') end_pos = Some (Some piece)
     /\ forall q, q <> start_pos -> q <> end_pos ->
         square (Board.board self') q = square (Board.board self) q)
  /\ (Board.is_valid_move cls fuel self start_pos end_pos = Some (Ret false) ->
      Board.move_piece cls fuel self start_pos end_pos = Some (Ret false, self)).
Proof.
  intros Hwf. split.
  - intros Hv.
    assert (start_pos <> end_pos) as Hne.
    { intros <-. by apply is_valid_move_same_square in Hv. }
    pose proof Hv as (Hs & He & piece & Hget & _ & _)%is_valid_move_true_inv.
    destruct (getitem2_in_range _ _ Hwf Hs) as (sq & Hsq & Hget').
    assert (sq = Some piece) as -> by congruence.
    destruct (setitem2_in_range _ end_pos (Some piece) Hwf He)
      as (g1 & Hset1 & Hwf1 & Hend1 & Hframe1).
    destruct (setitem2_in_range _ start_pos None Hwf1 Hs)
      as (g2 & Hset2 & Hwf2 & Hstart2 & Hframe2).
    exists (Board.mk g2), piece. unfold Board.move_piece.
    rewrite Hv, Hget, Hset1, Hset2. simpl.
    split; [done|]. split; [done|]. split; [done|]. split; [done|].
    split; [done|]. split.
    + rewrite Hframe2 by done. done.
    + intros q Hq1 Hq2. rewrite Hframe2 by done. by apply Hframe1.
  - intros Hv. unfold Board.move_piece. by rewrite Hv.
Qed.

Lemma move_piece_frame_witness :
  wf_grid starting_position
  /\ Board.is_valid_move completed 0 (Board.mk starting_position) (1, 4) (3, 4)
     = Some (Ret true)
  /\ exists self' piece,
      Board.move_piece completed 0 (Board.mk starting_position) (1, 4) (3, 4)
        = Some (Ret true, self')
      /\ wf_grid (Board.board self')
      /\ (1, 4) <> (3, 4)
      /\ square starting_position (1, 4) = Some (Some piece)
      /\ square (Board.board self') (1, 4) = Some None
      /\ square (Board.board self') (3, 4) = Some (Some piece)
      /\ forall q, q <> (1, 4) -> q <> (3, 4) ->
          square (Board.board self') q = square starting_position q.
Proof.
  split; [apply starting_position_wf|].
  split; [vm_compute; reflexivity|].
  apply (proj1 (move_piece_frame completed 0 (Board.mk starting_position)
                  (1, 4) (3, 4) starting_position_wf)).
  vm_compute; reflexivity.
Defined.

(** When [is_valid_move] raises, so does [move_piece], before any write. *)
Lemma move_piece_raises (cls : BoardLike Board.t) fuel self start_pos end_pos e :
  Board.is_valid_move cls fuel self start_pos end_pos = Some (Raise e) ->
  Board.move_piece cls fuel self start_pos end_pos = Some (Raise e, self).
Proof. intros Hv. unfold Board.move_piece. by rewrite Hv. Qed.

(** ** A move from a square to itself *)

Section AnyBoard.
Context {B : Type} {cls : BoardLike B}.

(** The walk that [Bishop.can_move] starts for equal positions moves by
    (-1,-1) from one step below-left of the destination: it never stands on
    the destination, so it never leaves the loop by its condition. *)
Lemma walk_away_never_arrives (fuel : nat) (board : B) (end_pos : Pos) (n : Z) :
  1 <= n ->
  walk fuel board (fst end_pos - n, snd end_pos - n) (-1, -1) end_pos
  <> Some (Ret PathClear).
Proof.
  revert n. induction fuel as [|fuel IH]; intros n Hn; simpl.
  - assert (Pos_eqb (fst end_pos - n, snd end_pos - n) end_pos = false) as ->; [|done].
    apply Pos_eqb_neq. destruct end_pos as [r c]. simpl. intros [= ? ?]. lia.
  - assert (Pos_eqb (fst end_pos - n, snd end_pos - n) end_pos = false) as ->.
    { apply Pos_eqb_neq. destruct end_pos as [r c]. simpl. intros [= ? ?]. lia. }
    destruct (is_occupied board _) as [[|]|]; try done.
    replace (fst end_pos - n + -1) with (fst end_pos - (n + 1)) by lia.
    replace (snd end_pos - n + -1) with (snd end_pos - (n + 1)) by lia.
    apply IH. lia.
Qed.

Lemma Bishop_same_square_not_true (fuel : nat) (self : Piece) (board : B) (pos : Pos) :
  Bishop.can_move fuel self board pos pos <> Some (Ret true).
Proof.
  destruct pos as [r c]. unfold Bishop.can_move, slide.
  rewrite !Z.sub_diag, Z.eqb_refl. unfold step_nonzero.
  destruct (Z.gtb_spec r r); [lia|]. destruct (Z.gtb_spec c c); [lia|].
  simpl fst; simpl snd.
  pose proof (walk_away_never_arrives fuel board (r, c) 1 ltac:(lia)) as Hw.
  simpl in Hw. replace (r + -1) with (r - 1) by lia. replace (c + -1) with (c - 1) by lia.
  destruct (walk fuel board (r - 1, c - 1) (-1, -1) (r, c)) as [[[|]|]|]; done.
Qed.

Lemma Knight_same_square (self : Piece) (board : B) (pos : Pos) :
  Knight.can_move self board pos pos = Ret false.
Proof.
  destruct pos as [r c]. unfold Knight.can_move. by rewrite !Z.sub_diag.
Qed.

Lemma Pawn_same_square (self : Piece) (board : B) (pos : Pos) :
  Pawn.can_move self board pos pos = Ret false.
Proof.
  destruct pos as [r c]. unfold Pawn.can_move. rewrite Z.eqb_refl.
  destruct (Color_eqb (color self) WHITE).
  - destruct (Z.eqb_spec (r + 1) r); [lia|].
    destruct (Z.eqb_spec (r + 2 * 1) r); [lia|]. done.
  - destruct (Z.eqb_spec (r + -1) r); [lia|].
    destruct (Z.eqb_spec (r + 2 * -1) r); [lia|]. done.
Qed.

Lemma King_same_square (self : Piece) (board : B) (pos : Pos) :
  King.can_move self board pos pos = free_or_enemy self board pos.
Proof.
  destruct pos as [r c]. unfold King.can_move. by rewrite !Z.sub_diag.
Qed.

Lemma Queen_same_square (fuel : nat) (self : Piece) (board : B) (pos : Pos) :
  Queen.can_move fuel self board pos pos = Some (free_or_enemy self board pos).
Proof.
  destruct pos as [r c]. unfold Queen.can_move, slide, step_or_zero.
  rewrite !Z.eqb_refl. simpl fst; simpl snd. rewrite !Z.add_0_r.
  destruct fuel; simpl; by rewrite Pos_eqb_refl.
Qed.

Lemma Rook_same_square (fuel : nat) (self : Piece) (board : B) (pos : Pos) :
  Rook.can_move fuel self board pos pos = Some (free_or_enemy self board pos).
Proof.
  destruct pos as [r c]. unfold Rook.can_move, slide, step_or_zero.
  rewrite !Z.eqb_refl. simpl fst; simpl snd. rewrite !Z.add_0_r.
  destruct fuel; simpl; by rewrite Pos_eqb_refl.
Qed.
End AnyBoard.

Lemma as_written_truthful : truthful Board.as_written.
Proof. intros self pos. split; intros ? Hq; discriminate Hq. Qed.

Lemma completed_truthful : truthful completed.
Proof.
  intros self pos. split; simpl.
  - intros b Hq. destruct (square (Board.board self) pos) as [sq|]; [|done].
    exists sq. split; [done|]. congruence.
  - intros t Hq. destruct (square (Board.board self) pos) as [sq|]; [|done].
    congruence.
Qed.

(** On a truthful board, the destination test fails on a square that
    holds a piece of the mover's colour. *)
Lemma free_or_enemy_own (cls : BoardLike Board.t) (self : Piece)
    (board : Board.t) (pos : Pos) (q : Piece) :
  truthful cls ->
  square (Board.board board) pos = Some (Some q) -> color q = color self ->
  free_or_enemy self board pos <> Ret true.
Proof.
  intros Htr Hsq Hcol. destruct (Htr board pos) as [Hocc Hget].
  unfold free_or_enemy.
  destruct (is_occupied board pos) as [b|e] eqn:Hb; [|done].
  destruct (Hocc b eq_refl) as (sq & Hsq' & ->).
  assert (sq = Some q) as -> by congruence. simpl.
  destruct (get_piece board pos) as [t|e] eqn:Ht; [|done].
  rewrite (Hget t eq_refl) in Hsq. injection Hsq as ->. simpl.
  rewrite Hcol, Color_eqb_refl. done.
Qed.

(** On a board whose queries do not lie (class [Board] as written,
    where they raise, and the completed one alike), for every kind of
    piece: if the square [pos] holds a piece of the mover's colour,
    [can_move(board, pos, pos)] does not return true. *)
Theorem can_move_same_square_not_true (cls : BoardLike Board.t) (fuel : nat)
    (self : Piece) (board : Board.t) (pos : Pos) (q : Piece) :
  truthful cls ->
  square (Board.board board) pos = Some (Some q) -> color q = color self ->
  can_move fuel self board pos pos <> Some (Ret true).
Proof.
  intros Htr Hsq Hcol.
  pose proof (free_or_enemy_own cls self board pos q Htr Hsq Hcol) as Hfe.
  unfold can_move. destruct (kind self).
  - rewrite King_same_square. congruence.
  - rewrite Queen_same_square. congruence.
  - rewrite Rook_same_square. congruence.
  - apply Bishop_same_square_not_true.
  - by rewrite Knight_same_square.
  - by rewrite Pawn_same_square.
Qed.

Lemma can_move_same_square_not_true_witness :
  truthful Board.as_written
  /\ square starting_position (0, 4) = Some (Some (mkPiece King WHITE))
  /\ can_move (cls := Board.as_written) 8 (mkPiece King WHITE)
       (Board.mk starting_position) (0, 4) (0, 4) <> Some (Ret true).
Proof.
  split; [apply as_written_truthful|]. split; [reflexivity|].
  apply (can_move_same_square_not_true Board.as_written 8 (mkPiece King WHITE)
           (Board.mk starting_position) (0, 4) (mkPiece King WHITE)
           as_written_truthful eq_refl eq_refl).
Defined.

(** C7. On class [Board] as written a move from a square to itself is
    answered false for a knight and for a pawn only: for a king, a queen,
    a rook and a bishop, on every board and every square, [can_move]
    raises at [board.is_occupied], before any colour is compared. *)
Theorem can_move_same_square_as_written (fuel : nat) (self : Piece)
    (board : Board.t) (pos : Pos) :
  can_move (cls := Board.as_written) (S fuel) self board pos pos
  = match kind self with
    | Knight | Pawn => Some (Ret false)
    | King | Queen | Rook | Bishop =>
      Some (Raise (AttributeError "Board" "is_occupied"))
    end.
Proof.
  unfold can_move. destruct (kind self).
  - by rewrite King_same_square.
  - by rewrite Queen_same_square.
  - by rewrite Rook_same_square.
  - destruct pos as [r c]. unfold Bishop.can_move, slide, step_nonzero.
    rewrite !Z.sub_diag, Z.eqb_refl.
    destruct (Z.gtb_spec r r); [lia|]. destruct (Z.gtb_spec c c); [lia|].
    simpl.
    assert (Pos_eqb (r + -1, c + -1) (r, c) = false) as ->; [|done].
    apply Pos_eqb_neq. intros [= ? ?]. lia.
  - by rewrite Knight_same_square.
  - by rewrite Pawn_same_square.
Qed.

(** ** The pieces on class [Board] as written *)

(** Every piece's [can_move] ends, with one unit of fuel, when the board is
    an instance of class [Board] as written: a loop body is entered at most
    once, because its first statement raises. *)
Lemma can_move_as_written_ends (fuel : nat) (self : Piece) (board : Board.t)
    (start_pos end_pos : Pos) :
  exists r,
    can_move (cls := Board.as_written) (S fuel) self board start_pos end_pos
    = Some r.
Proof.
  destruct start_pos as [sr sc], end_pos as [er ec].
  unfold can_move. destruct (kind self); try (eexists; reflexivity).
  - unfold Queen.can_move.
    destruct (_ || _ || _); [|eexists; reflexivity].
    unfold slide. simpl. destruct (Pos_eqb _ _); eexists; reflexivity.
  - unfold Rook.can_move.
    destruct (_ || _); [|eexists; reflexivity].
    unfold slide. simpl. destruct (Pos_eqb _ _); eexists; reflexivity.
  - unfold Bishop.can_move.
    destruct (_ =? _); [|eexists; reflexivity].
    unfold slide. simpl. destruct (Pos_eqb _ _); eexists; reflexivity.
Qed.

(** No piece is ever told it can move, and so no move is ever valid, on
    class [Board] as written: each [return True] follows a query. *)
Lemma can_move_as_written_not_true (fuel : nat) (self : Piece) (board : Board.t)
    (start_pos end_pos : Pos) :
  can_move (cls := Board.as_written) fuel self board start_pos end_pos
  <> Some (Ret true).
Proof.
  destruct start_pos as [sr sc], end_pos as [er ec].
  unfold can_move. destruct (kind self).
  - unfold King.can_move. by destruct (_ && _).
  - unfold Queen.can_move. destruct (_ || _ || _); [|done].
    unfold slide. by destruct (walk _ _ _ _ _) as [[[|]|]|].
  - unfold Rook.can_move. destruct (_ || _); [|done].
    unfold slide. by destruct (walk _ _ _ _ _) as [[[|]|]|].
  - unfold Bishop.can_move. destruct (_ =? _); [|done].
    unfold slide. by destruct (walk _ _ _ _ _) as [[[|]|]|].
  - unfold Knight.can_move. by destruct (_ || _).
  - unfold Pawn.can_move.
    destruct (sc =? ec).
    + destruct (_ =? _); [done|]. by destruct (_ && _).
    + by destruct (_ && _).
Qed.

Lemma is_valid_move_as_written_not_true (fuel : nat) (self : Board.t)
    (start_pos end_pos : Pos) :
  Board.is_valid_move Board.as_written fuel self start_pos end_pos
  <> Some (Ret true).
Proof.
  intros (_ & _ & piece & _ & Hcan & _)%is_valid_move_true_inv.
  by apply can_move_as_written_not_true in Hcan.
Qed.

(** C5. On the fresh board White's pawn on (1,4) is not told that it may
    advance to (2,4) or to (3,4), and its diagonal step to the empty
    square (2,5) is not answered with false: all three calls raise at the
    query of the board. *)
Theorem Pawn_can_move_raises_on_fresh_board :
  Pawn.can_move (cls := Board.as_written) (mkPiece Pawn WHITE)
    (Board.mk starting_position) (1, 4) (2, 4)
  = Raise (AttributeError "Board" "is_occupied")
  /\ Pawn.can_move (cls := Board.as_written) (mkPiece Pawn WHITE)
      (Board.mk starting_position) (1, 4) (3, 4)
    = Raise (AttributeError "Board" "is_occupied")
  /\ Pawn.can_move (cls := Board.as_written) (mkPiece Pawn WHITE)
      (Board.mk starting_position) (1, 4) (2, 5)
    = Raise (AttributeError "Board" "get_piece").
Proof. split; [|split]; reflexivity. Qed.

(** C6. On the fresh board the rook's move from (0,0) to (0,4), the
    queen's from (0,3) to (3,3) and the bishop's from (0,2) to (2,4), each
    with an occupied square in between, do not return false: the walk
    raises at its first square. *)
Theorem sliding_can_move_raises_on_fresh_board (fuel : nat) :
  Rook.can_move (cls := Board.as_written) (S fuel) (mkPiece Rook WHITE)
    (Board.mk starting_position) (0, 0) (0, 4)
  = Some (Raise (AttributeError "Board" "is_occupied"))
  /\ Queen.can_move (cls := Board.as_written) (S fuel) (mkPiece Queen WHITE)
      (Board.mk starting_position) (0, 3) (3, 3)
    = Some (Raise (AttributeError "Board" "is_occupied"))
  /\ Bishop.can_move (cls := Board.as_written) (S fuel) (mkPiece Bishop WHITE)
      (Board.mk starting_position) (0, 2) (2, 4)
    = Some (Raise (AttributeError "Board" "is_occupied")).
Proof. split; [|split]; reflexivity. Qed.

(** On a board that holds nothing anywhere the walk that [Bishop.can_move]
    starts for equal positions goes on for as long as there is fuel. *)
Lemma Bishop_same_square_boundless (fuel : nat) (self : Piece) (pos : Pos) :
  Bishop.can_move (cls := boundless) fuel self tt pos pos = None.
Proof.
  destruct pos as [r c]. unfold Bishop.can_move, slide, step_nonzero.
  rewrite !Z.sub_diag, Z.eqb_refl.
  destruct (Z.gtb_spec r r); [lia|]. destruct (Z.gtb_spec c c); [lia|].
  simpl fst; simpl snd.
  assert (forall n, 1 <= n ->
            walk (cls := boundless) fuel tt (r - n, c - n) (-1, -1) (r, c) = None)
    as Hloop.
  { induction fuel as [|fuel IH]; intros n Hn; simpl.
    - assert (Pos_eqb (r - n, c - n) (r, c) = false) as ->; [|done].
      apply Pos_eqb_neq. intros [= ? ?]. lia.
    - assert (Pos_eqb (r - n, c - n) (r, c) = false) as ->.
      { apply Pos_eqb_neq. intros [= ? ?]. lia. }
      replace (r - n + -1) with (r - (n + 1)) by lia.
      replace (c - n + -1) with (c - (n + 1)) by lia.
      apply IH. lia. }
  replace (r + -1) with (r - 1) by lia. replace (c + -1) with (c - 1) by lia.
  by rewrite Hloop.
Qed.

(** C8. [Bishop.can_move] from a square to itself starts a walk that does
    not reach the destination: on class [Board] as written the walk stops
    on its first square, (r-1, c-1), by raising, so that no result is
    produced; and whatever the board answers, the walk never leaves the
    loop at the destination. *)
Theorem Bishop_same_square_walk (fuel : nat) (self : Piece) (pos : Pos) :
  (forall board : Board.t,
      Bishop.can_move (cls := Board.as_written) (S fuel) self board pos pos
      = Some (Raise (AttributeError "Board" "is_occupied")))
  /\ (forall (B : Type) (cls : BoardLike B) (board : B),
        walk fuel board (fst pos - 1, snd pos - 1) (-1, -1) pos
        <> Some (Ret PathClear)).
Proof.
  destruct pos as [r c]. split.
  - intros board. unfold Bishop.can_move, slide, step_nonzero.
    rewrite !Z.sub_diag, Z.eqb_refl.
    destruct (Z.gtb_spec r r); [lia|]. destruct (Z.gtb_spec c c); [lia|].
    simpl.
    assert (Pos_eqb (r + -1, c + -1) (r, c) = false) as ->; [|done].
    apply Pos_eqb_neq. intros [= ? ?]. lia.
  - intros B cls board.
    apply (walk_away_never_arrives fuel board (r, c) 1). lia.
Qed.

(** ** The pieces on the completed board *)

Lemma square_in_range (g : Grid) (p : Pos) :
  wf_grid g -> in_range p = true -> exists sq, square g p = Some sq.
Proof.
  intros Hwf Hp. destruct (getitem2_in_range g p Hwf Hp) as (sq & Hsq & _). eauto.
Qed.

Lemma completed_queries (g : Grid) (p : Pos) (sq : option Piece) :
  square g p = Some sq ->
  is_occupied (BoardLike := completed) (Board.mk g) p
    = Ret (if sq is Some _ then true else false)
  /\ get_piece (BoardLike := completed) (Board.mk g) p = Ret sq.
Proof. intros Hsq. simpl. by rewrite Hsq. Qed.

(** On the completed board, with start and end on the grid, a pawn's
    [can_move] returns a boolean, and returns true exactly in the three
    cases of the specification. *)
Lemma Pawn_can_move_completed (self : Piece) (g : Grid) (s e : Pos) :
  wf_grid g -> in_range s = true -> in_range e = true ->
  (exists b, Pawn.can_move (cls := completed) self (Board.mk g) s e = Ret b)
  /\ (Pawn.can_move (cls := completed) self (Board.mk g) s e = Ret true
      <-> spec_pawn_advance g (color self) s e
          \/ spec_pawn_double g (color self) s e
          \/ spec_pawn_capture g (color self) s e).
Proof.
  intros Hwf Hs He.
  destruct (square_in_range g e Hwf He) as (sqe & Hsqe).
  destruct (completed_queries g e sqe Hsqe) as [Hocc Hget].
  pose proof Hs as Hs'%in_range_spec. pose proof He as He'%in_range_spec.
  destruct s as [sr sc], e as [er ec]. simpl in Hs', He'.
  unfold spec_pawn_advance, spec_pawn_double, spec_pawn_capture, Pawn.can_move,
    Pawn.on_home_row.
  simpl fst; simpl snd.
  assert (forall m, 0 <= m < 8 -> exists sqm, square g (m, sc) = Some sqm
            /\ is_occupied (BoardLike := completed) (Board.mk g) (m, sc)
               = Ret (if sqm is Some _ then true else false)) as Hmid.
  { intros m Hm. destruct (square_in_range g (m, sc) Hwf) as (sqm & Hsqm).
    { apply in_range_spec. simpl. lia. }
    exists sqm. split; [done|]. by apply completed_queries. }
  assert (forall d h : Z, (d = 1 \/ d = -1) ->
    let r :=
      if sc =? ec then
        if sr + d =? er then
          occ ← is_occupied (BoardLike := completed) (Board.mk g) (er, ec); Ret (negb occ)
        else if (sr + 2 * d =? er) && (sr =? h) then
          mid ← is_occupied (BoardLike := completed) (Board.mk g) (sr + d, sc);
          if negb mid then
            occ ← is_occupied (BoardLike := completed) (Board.mk g) (er, ec); Ret (negb occ)
          else Ret false
        else Ret false
      else if (Z.abs (sc - ec) =? 1) && (sr + d =? er) then
        target_piece ← get_piece (BoardLike := completed) (Board.mk g) (er, ec);
        match target_piece with
        | Some q => Ret (negb (Color_eqb (color q) (color self)))
        | None => Ret false
        end
      else Ret false in
    (exists b, r = Ret b)
    /\ (r = Ret true <->
        (ec = sc /\ er = sr + d /\ square g (er, ec) = Some None)
        \/ (ec = sc /\ er = sr + 2 * d /\ sr = h
            /\ square g (sr + d, sc) = Some None /\ square g (er, ec) = Some None)
        \/ (Z.abs (sc - ec) = 1 /\ er = sr + d
            /\ exists q, square g (er, ec) = Some (Some q) /\ color q <> color self)))
    as Hgen.
  { intros d h Hd r. subst r.
    destruct (Z.eqb_spec sc ec) as [Hcol|Hcol].
    - destruct (Z.eqb_spec (sr + d) er) as [Hr1|Hr1].
      + rewrite Hocc. destruct sqe as [q|]; simpl.
        * split; [eauto|]. split; [done|].
          intros [(?&?&?)|[(?&?&?&?&?)|(?&?&q'&?&?)]]; first [lia | congruence].
        * split; [eauto|]. split; [|done]. intros _. left. repeat split; lia || done.
      + destruct (Z.eqb_spec (sr + 2 * d) er) as [Hr2|Hr2];
          [destruct (Z.eqb_spec sr h) as [Hh|Hh]|]; simpl andb; cbv iota.
        * destruct (Hmid (sr + d) ltac:(lia)) as (sqm & Hsqm & Hoccm).
          rewrite Hoccm, Hocc. destruct sqm as [qm|]; simpl.
          { split; [eauto|]. split; [done|].
            intros [(?&?&?)|[(?&?&?&?&?)|(?&?&q'&?&?)]]; first [lia | congruence]. }
          destruct sqe as [q|]; simpl.
          { split; [eauto|]. split; [done|].
            intros [(?&?&?)|[(?&?&?&?&?)|(?&?&q'&?&?)]]; first [lia | congruence]. }
          split; [eauto|]. split; [|done]. intros _. right; left.
          repeat split; lia || done.
        * split; [eauto|]. split; [done|].
          intros [(?&?&?)|[(?&?&?&?&?)|(?&?&q'&?&?)]]; first [lia | congruence].
        * split; [eauto|]. split; [done|].
          intros [(?&?&?)|[(?&?&?&?&?)|(?&?&q'&?&?)]]; first [lia | congruence].
    - destruct (Z.eqb_spec (Z.abs (sc - ec)) 1) as [Hd1|Hd1];
        [destruct (Z.eqb_spec (sr + d) er) as [Hr1|Hr1]|]; simpl andb; cbv iota.
      + rewrite Hget. destruct sqe as [q|]; simpl.
        * destruct (Color_eqb (color q) (color self)) eqn:Hq; simpl.
          { apply Color_eqb_eq in Hq. split; [eauto|]. split; [done|].
            intros [(?&?&?)|[(?&?&?&?&?)|(?&?&q'&?&?)]]; first [lia | congruence]. }
          split; [eauto|]. split; [|done]. intros _. right; right.
          split; [done|]. split; [lia|]. exists q. split; [done|].
          intros Heq. apply Color_eqb_eq in Heq. congruence.
        * split; [eauto|]. split; [done|].
          intros [(?&?&?)|[(?&?&?&?&?)|(?&?&q'&?&?)]]; first [lia | congruence].
      + split; [eauto|]. split; [done|].
        intros [(?&?&?)|[(?&?&?&?&?)|(?&?&q'&?&?)]]; first [lia | congruence].
      + split; [eauto|]. split; [done|].
        intros [(?&?&?)|[(?&?&?&?&?)|(?&?&q'&?&?)]]; first [lia | congruence]. }
  destruct (color self) eqn:Hc; simpl Color_eqb; simpl forward; simpl home_row;
    cbv iota.
  - specialize (Hgen 1 1 ltac:(lia)). simpl in Hgen.
    rewrite andb_false_l, orb_false_r, andb_true_l. exact Hgen.
  - specialize (Hgen (-1) 6 ltac:(lia)). simpl in Hgen.
    rewrite andb_false_l, orb_false_l, andb_true_l. exact Hgen.
Qed.

(** *** Sliding pieces *)

Lemma walk_S {B : Type} {cls : BoardLike B} (fuel : nat) (board : B)
    (current step end_pos : Pos) :
  walk (S fuel) board current step end_pos
  = if Pos_eqb current end_pos then Some (Ret PathClear)
    else match is_occupied board current with
         | Raise e => Some (Raise e)
         | Ret true => Some (Ret PathBlocked)
         | Ret false =>
           walk fuel board (fst current + fst step, snd current + snd step)
                step end_pos
         end.
Proof. reflexivity. Qed.

Lemma step_or_zero_sgn (a b : Z) : step_or_zero a b = Z.sgn (b - a).
Proof.
  unfold step_or_zero. destruct (Z.eqb_spec a b), (Z.gtb_spec b a); lia.
Qed.

Lemma step_nonzero_sgn (a b : Z) : a <> b -> step_nonzero a b = Z.sgn (b - a).
Proof. intros Hab. unfold step_nonzero. destruct (Z.gtb_spec b a); lia. Qed.

Ltac sgn_cases s e :=
  destruct s as [sr sc], e as [er ec];
  unfold toward, distance, same_line, same_diagonal in *; simpl fst in *; simpl snd in *;
  destruct (Z.sgn_spec (er - sr)) as [[? ->]|[[? ->]|[? ->]]];
  destruct (Z.sgn_spec (ec - sc)) as [[? ->]|[[? ->]|[? ->]]].

Lemma toward_in_range (s e : Pos) (k : Z) :
  in_range s = true -> in_range e = true ->
  same_line s e \/ same_diagonal s e ->
  0 <= k <= distance s e -> in_range (toward s e k) = true.
Proof.
  intros Hs%in_range_spec He%in_range_spec Hal Hk. apply in_range_spec.
  sgn_cases s e; simpl in *; lia.
Qed.

Lemma toward_arrives (s e : Pos) :
  same_line s e \/ same_diagonal s e -> toward s e (distance s e) = e.
Proof. intros Hal. sgn_cases s e; f_equal; lia. Qed.

Lemma toward_not_yet (s e : Pos) (k : Z) :
  same_line s e \/ same_diagonal s e ->
  0 <= k < distance s e -> toward s e k <> e.
Proof. intros Hal Hk. sgn_cases s e; intros [= ? ?]; lia. Qed.

Lemma toward_next (s e : Pos) (k : Z) (step : Pos) :
  step = (Z.sgn (fst e - fst s), Z.sgn (snd e - snd s)) ->
  (fst (toward s e k) + fst step, snd (toward s e k) + snd step)
  = toward s e (k + 1).
Proof. intros ->. unfold toward. simpl. f_equal; lia. Qed.

Lemma walk_blocked_completed (g : Grid) (s e : Pos) (k : Z) (q : Piece) :
  wf_grid g -> in_range s = true -> in_range e = true ->
  same_line s e \/ same_diagonal s e ->
  k < distance s e -> square g (toward s e k) = Some (Some q) ->
  forall (fuel : nat) (j : Z),
    1 <= j <= k -> k - j < Z.of_nat fuel ->
    walk (cls := completed) fuel (Board.mk g) (toward s e j)
         (Z.sgn (fst e - fst s), Z.sgn (snd e - snd s)) e
    = Some (Ret PathBlocked).
Proof.
  intros Hwf Hs He Hal Hk Hq. induction fuel as [|fuel IH]; intros j Hj Hf; [lia|].
  rewrite walk_S.
  assert (Pos_eqb (toward s e j) e = false) as ->.
  { apply Pos_eqb_neq, toward_not_yet; [done|lia]. }
  destruct (square_in_range g (toward s e j) Hwf) as (sq & Hsq).
  { apply toward_in_range; [done..|lia]. }
  destruct (completed_queries g _ sq Hsq) as [-> _].
  destruct sq as [p|]; [done|].
  assert (j <> k) by (intros ->; congruence).
  rewrite (toward_next s e j _ eq_refl). apply IH; lia.
Qed.

Lemma walk_clear_completed (g : Grid) (s e : Pos) :
  wf_grid g -> in_range s = true -> in_range e = true ->
  same_line s e \/ same_diagonal s e ->
  (forall k, 1 <= k < distance s e -> square g (toward s e k) = Some None) ->
  forall (fuel : nat) (j : Z),
    1 <= j <= distance s e -> distance s e - j <= Z.of_nat fuel ->
    walk (cls := completed) fuel (Board.mk g) (toward s e j)
         (Z.sgn (fst e - fst s), Z.sgn (snd e - snd s)) e
    = Some (Ret PathClear).
Proof.
  intros Hwf Hs He Hal Hfree.
  assert (forall fuel j, j = distance s e ->
            walk (cls := completed) fuel (Board.mk g) (toward s e j)
              (Z.sgn (fst e - fst s), Z.sgn (snd e - snd s)) e
            = Some (Ret PathClear)) as Hend.
  { intros fuel j ->. rewrite toward_arrives by done.
    destruct fuel; simpl; by rewrite Pos_eqb_refl. }
  induction fuel as [|fuel IH]; intros j Hj Hf.
  { apply Hend. lia. }
  destruct (decide (j = distance s e)) as [Heq|Hne]; [by apply Hend|].
  rewrite walk_S.
  assert (Pos_eqb (toward s e j) e = false) as ->.
  { apply Pos_eqb_neq, toward_not_yet; [done|lia]. }
  destruct (completed_queries g _ None (Hfree j ltac:(lia))) as [-> _].
  rewrite (toward_next s e j _ eq_refl). apply IH; lia.
Qed.

Lemma distance_le_7 (s e : Pos) :
  in_range s = true -> in_range e = true -> distance s e <= 7.
Proof.
  intros Hs%in_range_spec He%in_range_spec. unfold distance. lia.
Qed.

Lemma slide_blocked_completed (fuel : nat) (self : Piece) (g : Grid) (s e : Pos) :
  wf_grid g -> in_range s = true -> in_range e = true ->
  same_line s e \/ same_diagonal s e ->
  spec_blocked g s e -> (7 <= fuel)%nat ->
  slide (cls := completed) fuel self (Board.mk g) s
        (Z.sgn (fst e - fst s), Z.sgn (snd e - snd s)) e
  = Some (Ret false).
Proof.
  intros Hwf Hs He Hal (k & q & Hk & Hq) Hfuel. unfold slide.
  pose proof (distance_le_7 s e Hs He) as Hd.
  pose proof (toward_next s e 0 _ eq_refl) as Hfirst.
  replace (toward s e 0) with s in Hfirst
    by (unfold toward; destruct s; simpl; f_equal; lia).
  rewrite Hfirst.
  rewrite (walk_blocked_completed g s e k q); try done; lia.
Qed.

Lemma slide_clear_completed (fuel : nat) (self : Piece) (g : Grid) (s e : Pos) :
  wf_grid g -> in_range s = true -> in_range e = true ->
  same_line s e \/ same_diagonal s e -> s <> e ->
  (forall k, 1 <= k < distance s e -> square g (toward s e k) = Some None) ->
  (7 <= fuel)%nat ->
  slide (cls := completed) fuel self (Board.mk g) s
        (Z.sgn (fst e - fst s), Z.sgn (snd e - snd s)) e
  = Some (free_or_enemy (cls := completed) self (Board.mk g) e).
Proof.
  intros Hwf Hs He Hal Hne Hfree Hfuel. unfold slide.
  pose proof (distance_le_7 s e Hs He) as Hd.
  assert (1 <= distance s e) as Hd1.
  { unfold distance. destruct s as [sr sc], e as [er ec]. simpl.
    destruct (decide (sr = er)), (decide (sc = ec)); [congruence|lia..]. }
  pose proof (toward_next s e 0 _ eq_refl) as Hfirst.
  replace (toward s e 0) with s in Hfirst
    by (unfold toward; destruct s; simpl; f_equal; lia).
  rewrite Hfirst.
  rewrite (walk_clear_completed g s e); try done; lia.
Qed.

Lemma Rook_steps (fuel : nat) (self : Piece) {B} {cls : BoardLike B} (board : B) (s e : Pos) :
  Rook.can_move fuel self board s e
  = if (fst s =? fst e) || (snd s =? snd e)
    then slide fuel self board s (Z.sgn (fst e - fst s), Z.sgn (snd e - snd s)) e
    else Some (Ret false).
Proof.
  destruct s as [sr sc], e as [er ec]. unfold Rook.can_move. simpl.
  by rewrite !step_or_zero_sgn.
Qed.

Lemma Queen_steps (fuel : nat) (self : Piece) {B} {cls : BoardLike B} (board : B) (s e : Pos) :
  Queen.can_move fuel self board s e
  = if (fst s =? fst e) || (snd s =? snd e)
       || (Z.abs (fst e - fst s) =? Z.abs (snd e - snd s))
    then slide fuel self board s (Z.sgn (fst e - fst s), Z.sgn (snd e - snd s)) e
    else Some (Ret false).
Proof.
  destruct s as [sr sc], e as [er ec]. unfold Queen.can_move. simpl.
  by rewrite !step_or_zero_sgn.
Qed.

Lemma Bishop_steps (fuel : nat) (self : Piece) {B} {cls : BoardLike B} (board : B) (s e : Pos) :
  s <> e ->
  Bishop.can_move fuel self board s e
  = if Z.abs (fst e - fst s) =? Z.abs (snd e - snd s)
    then slide fuel self board s (Z.sgn (fst e - fst s), Z.sgn (snd e - snd s)) e
    else Some (Ret false).
Proof.
  intros Hne. destruct s as [sr sc], e as [er ec]. unfold Bishop.can_move. simpl.
  destruct (Z.eqb_spec (Z.abs (er - sr)) (Z.abs (ec - sc))) as [Hd|Hd]; [|done].
  assert (sr <> er /\ sc <> ec) as [? ?].
  { split; intros ->; apply Hne; f_equal; lia. }
  by rewrite !step_nonzero_sgn.
Qed.

Lemma blocked_apart (g : Grid) (s e : Pos) : spec_blocked g s e -> s <> e.
Proof.
  intros (k & q & Hk & _) <-. unfold distance in Hk. lia.
Qed.

(** On the completed board, with start and end on the grid: a rook on a
    shared row or column, a bishop on a diagonal and a queen on either are
    answered false when a square in between is occupied, whatever the
    destination holds. *)
Lemma sliding_blocked_completed (fuel : nat) (self : Piece) (g : Grid) (s e : Pos) :
  wf_grid g -> in_range s = true -> in_range e = true ->
  spec_blocked g s e -> (7 <= fuel)%nat ->
  (same_line s e ->
   Rook.can_move (cls := completed) fuel self (Board.mk g) s e = Some (Ret false))
  /\ (same_diagonal s e ->
      Bishop.can_move (cls := completed) fuel self (Board.mk g) s e = Some (Ret false))
  /\ (same_line s e \/ same_diagonal s e ->
      Queen.can_move (cls := completed) fuel self (Board.mk g) s e = Some (Ret false)).
Proof.
  intros Hwf Hs He Hbl Hfuel. pose proof (blocked_apart g s e Hbl) as Hne.
  split; [|split].
  - intros Hal. rewrite Rook_steps.
    rewrite slide_blocked_completed by auto.
    by destruct (_ || _).
  - intros Hal. rewrite Bishop_steps by done.
    rewrite slide_blocked_completed by auto.
    by destruct (_ =? _).
  - intros Hal. rewrite Queen_steps.
    rewrite slide_blocked_completed by auto.
    by destruct (_ || _ || _).
Qed.

(** A move off the piece's lines is answered false, on any board. *)
Lemma sliding_not_aligned {B} {cls : BoardLike B} (fuel : nat) (self : Piece)
    (board : B) (s e : Pos) :
  (~ same_line s e -> Rook.can_move fuel self board s e = Some (Ret false))
  /\ (~ same_diagonal s e -> Bishop.can_move fuel self board s e = Some (Ret false))
  /\ (~ same_line s e -> ~ same_diagonal s e ->
      Queen.can_move fuel self board s e = Some (Ret false)).
Proof.
  destruct s as [sr sc], e as [er ec].
  unfold same_line, same_diagonal, Rook.can_move, Bishop.can_move, Queen.can_move.
  simpl fst; simpl snd.
  destruct (Z.eqb_spec sr er), (Z.eqb_spec sc ec),
    (Z.eqb_spec (Z.abs (er - sr)) (Z.abs (ec - sc))); simpl; tauto.
Qed.

(** On the completed board a move from a square that holds a piece of the
    mover's colour to the same square is answered false by every class
    but [Bishop]: by [King], [Queen] and [Rook] because of what the
    destination holds. *)
Lemma same_square_completed (fuel : nat) (self : Piece) (g : Grid) (pos : Pos)
    (q : Piece) :
  square g pos = Some (Some q) -> color q = color self -> kind self <> Bishop ->
  can_move (cls := completed) fuel self (Board.mk g) pos pos = Some (Ret false).
Proof.
  intros Hsq Hcol Hk.
  assert (free_or_enemy (cls := completed) self (Board.mk g) pos = Ret false) as Hfe.
  { destruct (completed_queries g pos _ Hsq) as [Hocc Hget].
    unfold free_or_enemy. rewrite Hocc, Hget. simpl.
    by rewrite Hcol, Color_eqb_refl. }
  unfold can_move. destruct (kind self); try done.
  - by rewrite King_same_square, Hfe.
  - by rewrite Queen_same_square, Hfe.
  - by rewrite Rook_same_square, Hfe.
  - by rewrite Knight_same_square.
  - by rewrite Pawn_same_square.
Qed.

(** *** Every answer is a boolean, but one *)

Lemma free_or_enemy_completed (self : Piece) (g : Grid) (e : Pos) :
  wf_grid g -> in_range e = true ->
  exists b, free_or_enemy (cls := completed) self (Board.mk g) e = Ret b.
Proof.
  intros Hwf He. destruct (square_in_range g e Hwf He) as (sq & Hsq).
  destruct (completed_queries g e sq Hsq) as [Hocc Hget].
  unfold free_or_enemy. rewrite Hocc, Hget. destruct sq; simpl; eauto.
Qed.

Lemma walk_returns_completed (g : Grid) (s e : Pos) :
  wf_grid g -> in_range s = true -> in_range e = true ->
  same_line s e \/ same_diagonal s e ->
  forall (fuel : nat) (j : Z),
    1 <= j <= distance s e -> distance s e - j <= Z.of_nat fuel ->
    exists x,
      walk (cls := completed) fuel (Board.mk g) (toward s e j)
           (Z.sgn (fst e - fst s), Z.sgn (snd e - snd s)) e
      = Some (Ret x).
Proof.
  intros Hwf Hs He Hal.
  assert (forall fuel j, j = distance s e ->
            walk (cls := completed) fuel (Board.mk g) (toward s e j)
              (Z.sgn (fst e - fst s), Z.sgn (snd e - snd s)) e
            = Some (Ret PathClear)) as Hend.
  { intros fuel j ->. rewrite toward_arrives by done.
    destruct fuel; simpl; by rewrite Pos_eqb_refl. }
  induction fuel as [|fuel IH]; intros j Hj Hf.
  { eexists. apply Hend. lia. }
  destruct (decide (j = distance s e)) as [Heq|Hne]; [eexists; by apply Hend|].
  rewrite walk_S.
  assert (Pos_eqb (toward s e j) e = false) as ->.
  { apply Pos_eqb_neq, toward_not_yet; [done|lia]. }
  destruct (square_in_range g (toward s e j) Hwf) as (sq & Hsq).
  { apply toward_in_range; [done..|lia]. }
  destruct (completed_queries g _ sq Hsq) as [-> _].
  destruct sq as [p|]; [eauto|].
  rewrite (toward_next s e j _ eq_refl). apply IH; lia.
Qed.

Lemma slide_returns_completed (fuel : nat) (self : Piece) (g : Grid) (s e : Pos) :
  wf_grid g -> in_range s = true -> in_range e = true ->
  same_line s e \/ same_diagonal s e -> s <> e -> (7 <= fuel)%nat ->
  exists b,
    slide (cls := completed) fuel self (Board.mk g) s
          (Z.sgn (fst e - fst s), Z.sgn (snd e - snd s)) e
    = Some (Ret b).
Proof.
  intros Hwf Hs He Hal Hne Hfuel. unfold slide.
  pose proof (distance_le_7 s e Hs He) as Hd.
  assert (1 <= distance s e) as Hd1.
  { unfold distance. destruct s as [sr sc], e as [er ec]. simpl.
    destruct (decide (sr = er)), (decide (sc = ec)); [congruence|lia..]. }
  pose proof (toward_next s e 0 _ eq_refl) as Hfirst.
  replace (toward s e 0) with s in Hfirst
    by (unfold toward; destruct s; simpl; f_equal; lia).
  rewrite Hfirst.
  destruct (walk_returns_completed g s e Hwf Hs He Hal fuel (0 + 1)) as ([|] & ->);
    [lia|lia| |eauto].
  destruct (free_or_enemy_completed self g e Hwf He) as (b & ->). eauto.
Qed.

(** On the completed board, with start and end on the grid, every piece's
    [can_move] returns a boolean within seven steps of its walk, except a
    bishop asked about a move from a square to itself. *)
Lemma can_move_completed_returns (fuel : nat) (self : Piece) (g : Grid) (s e : Pos) :
  wf_grid g -> in_range s = true -> in_range e = true -> (7 <= fuel)%nat ->
  (kind self = Bishop -> s <> e) ->
  exists b, can_move (cls := completed) fuel self (Board.mk g) s e = Some (Ret b).
Proof.
  intros Hwf Hs He Hfuel Hb.
  destruct (free_or_enemy_completed self g e Hwf He) as (bf & Hfe).
  unfold can_move. destruct (kind self) eqn:Hk.
  - destruct s as [sr sc], e as [er ec]. unfold King.can_move.
    destruct (_ && _); [rewrite Hfe|]; eauto.
  - destruct (decide (s = e)) as [->|Hne].
    { rewrite Queen_same_square, Hfe. eauto. }
    rewrite Queen_steps.
    destruct (_ || _ || _) eqn:Hal; [|eauto].
    apply slide_returns_completed; try done.
    rewrite !orb_true_iff, !Z.eqb_eq in Hal. unfold same_line, same_diagonal. tauto.
  - destruct (decide (s = e)) as [->|Hne].
    { rewrite Rook_same_square, Hfe. eauto. }
    rewrite Rook_steps.
    destruct (_ || _) eqn:Hal; [|eauto].
    apply slide_returns_completed; try done.
    rewrite !orb_true_iff, !Z.eqb_eq in Hal. unfold same_line. tauto.
  - specialize (Hb eq_refl). rewrite Bishop_steps by done.
    destruct (_ =? _) eqn:Hal; [|eauto].
    apply slide_returns_completed; try done.
    rewrite Z.eqb_eq in Hal. unfold same_diagonal. tauto.
  - destruct s as [sr sc], e as [er ec]. unfold Knight.can_move.
    destruct (_ || _); [rewrite Hfe|]; eauto.
  - destruct (Pawn_can_move_completed self g s e Hwf Hs He) as [(b & ->) _]. eauto.
Qed.

(** So, with the queries in place, [is_valid_move] returns a boolean for
    every pair of positions, a bishop's own square excepted. *)
Lemma is_valid_move_completed_returns (fuel : nat) (self : Board.t) (s e : Pos) :
  wf_grid (Board.board self) -> (7 <= fuel)%nat ->
  (forall c, square (Board.board self) s = Some (Some (mkPiece Bishop c)) -> s <> e) ->
  exists b, Board.is_valid_move completed fuel self s e = Some (Ret b).
Proof.
  intros Hwf Hfuel Hb.
  destruct (in_range s && in_range e) eqn:Hr.
  2:{ rewrite is_valid_move_out_of_range by done. eauto. }
  apply andb_true_iff in Hr as [Hs He].
  rewrite is_valid_move_on_grid by done.
  destruct (square (Board.board self) s) as [[piece|]|] eqn:Hsq; [|eauto..].
  destruct self as [g]. simpl in *.
  destruct (can_move_completed_returns fuel piece g s e Hwf Hs He Hfuel) as ([|] & ->).
  { intros Hk. destruct piece as [k c]. simpl in Hk. subst k. by apply (Hb c). }
  - destruct (square g e) as [[t|]|]; eauto.
  - eauto.
Qed.

(** *** The scenarios of the specification, on the completed board *)

Example scenario_1 :
  Board.is_valid_move completed 8 (Board.mk starting_position) (1, 4) (3, 4)
  = Some (Ret true).
Proof. vm_compute. reflexivity. Qed.

Example scenario_2 :
  Board.is_valid_move completed 8 (Board.mk starting_position) (1, 4) (4, 4)
  = Some (Ret false).
Proof. vm_compute. reflexivity. Qed.

Example scenario_3 :
  Board.is_valid_move completed 8 (Board.mk starting_position) (0, 0) (0, 4)
  = Some (Ret false).
Proof. vm_compute. reflexivity. Qed.

Example scenario_4_5 :
  exists b1 b2,
    Board.move_piece completed 8 (Board.mk starting_position) (0, 1) (2, 2)
    = Some (Ret true, b1)
    /\ Board.move_piece completed 8 b1 (7, 1) (5, 2) = Some (Ret true, b2)
    /\ square (Board.board b2) (0, 1) = Some None
    /\ square (Board.board b2) (7, 1) = Some None
    /\ square (Board.board b2) (2, 2) = Some (Some (mkPiece Knight WHITE))
    /\ square (Board.board b2) (5, 2) = Some (Some (mkPiece Knight BLACK)).
Proof.
  eexists _, _. split; [vm_compute; reflexivity|].
  split; [vm_compute; reflexivity|]. repeat split; vm_compute; reflexivity.
Qed.

(** With the queries in place a pawn does get to (3,4), and [start_game]
    afterwards leaves it there. *)
Example start_game_after_a_move :
  exists b1 game,
    Board.move_piece completed 8 (Board.mk starting_position) (1, 4) (3, 4)
    = Some (Ret true, b1)
    /\ Game.start_game (Game.mk b1 BLACK false) = Ret game
    /\ square (Board.board (Game.board game)) (3, 4)
       = Some (Some (mkPiece Pawn WHITE)).
Proof.
  eexists _, _. split; [vm_compute; reflexivity|].
  split; vm_compute; reflexivity.
Qed.

(** With the queries in place the bishop's walk for equal positions leaves
    the grid: from (0,2) its first square is (-1,1). *)
Example Bishop_same_square_completed (fuel : nat) :
  Board.is_valid_move completed (S fuel) (Board.mk starting_position) (0, 2) (0, 2)
  = Some (Raise IndexError).
Proof. reflexivity. Qed.

(** * Further properties of the code *)

(** ** [setup_pieces], [is_valid_move] and [move_piece] *)

Lemma square_rows (r0 r1 r2 r3 r4 r5 r6 r7 : list (option Piece)) (p : Pos) :
  square [r0; r1; r2; r3; r4; r5; r6; r7] p
  = if in_range p then
      (if fst p =? 0 then r0 else if fst p =? 1 then r1 else if fst p =? 2 then r2
       else if fst p =? 3 then r3 else if fst p =? 4 then r4
       else if fst p =? 5 then r5 else if fst p =? 6 then r6 else r7)
      !! Z.to_nat (snd p)
    else None.
Proof.
  unfold square. destruct (in_range p) eqn:Hp; [|done].
  apply in_range_spec in Hp as [Hr _]. destruct p as [r c]; simpl in *.
  assert (r = 0 \/ r = 1 \/ r = 2 \/ r = 3 \/ r = 4 \/ r = 5 \/ r = 6 \/ r = 7)
    as [->|[->|[->|[->|[->|[->|[->| ->]]]]]]] by lia; done.
Qed.

(** [setup_pieces] on an eight by eight grid does not raise; it writes the
    standard ranks on rows 0, 1, 6 and 7 whatever they held and leaves
    rows 2 to 5 as they were, so that the result is the starting position
    exactly when rows 2 to 5 were empty. *)
Theorem setup_pieces_effect (self : Board.t) :
  wf_grid (Board.board self) ->
  exists g',
    Board.setup_pieces self = Ret (Board.mk g')
    /\ wf_grid g'
    /\ (forall p, fst p = 0 \/ fst p = 1 \/ fst p = 6 \/ fst p = 7 ->
          square g' p = square starting_position p)
    /\ (forall p, 2 <= fst p <= 5 -> square g' p = square (Board.board self) p)
    /\ (g' = starting_position
        <-> forall p, 2 <= fst p <= 5 -> in_range p = true ->
              square (Board.board self) p = Some None).
Proof.
  intros Hwf. destruct self as [g]; simpl in *.
  destruct (wf_grid_inv g Hwf)
    as (r0&r1&r2&r3&r4&r5&r6&r7&->&H0&H1&H2&H3&H4&H5&H6&H7).
  eexists. unfold Board.setup_pieces; simpl Board.board.
  rewrite setup_grid_rows by done. split; [reflexivity|].
  split; [|split; [|split]].
  - split; [done|]. repeat constructor; done.
  - intros [r c] Hr; simpl in Hr. unfold starting_position.
    rewrite !square_rows. destruct (in_range (r, c)); [|done]. simpl fst.
    destruct Hr as [->|[->|[->| ->]]]; done.
  - intros [r c] Hr; simpl in Hr.
    rewrite !square_rows. destruct (in_range (r, c)); [|done]. simpl fst.
    assert (r = 2 \/ r = 3 \/ r = 4 \/ r = 5) as [->|[->|[->| ->]]] by lia; done.
  - unfold starting_position. split.
    + intros [= -> -> -> ->] [r c] Hr Hp; simpl in Hr.
      rewrite square_rows, Hp. simpl fst; simpl snd.
      apply in_range_spec in Hp as [_ Hc]; simpl in Hc.
      assert (r = 2 \/ r = 3 \/ r = 4 \/ r = 5) as [->|[->|[->| ->]]] by lia;
        simpl;
        assert (c = 0 \/ c = 1 \/ c = 2 \/ c = 3 \/ c = 4 \/ c = 5 \/ c = 6 \/ c = 7)
          as [->|[->|[->|[->|[->|[->|[->| ->]]]]]]] by lia; done.
    + intros Hempty.
      assert (forall r row, 2 <= r <= 5 -> length row = 8%nat ->
                (forall c, 0 <= c < 8 ->
                   square [r0; r1; r2; r3; r4; r5; r6; r7] (r, c) = row !! Z.to_nat c) ->
                row = empty_rank) as Hrow.
      { intros r row Hr Hlen Hsq.
        apply (list_eq_same_length _ _ 8%nat); [done|done|].
        intros i x y Hi Hx Hy.
        specialize (Hsq (Z.of_nat i) ltac:(lia)).
        rewrite Nat2Z.id in Hsq. rewrite Hempty in Hsq; [|simpl; lia|].
        2:{ apply in_range_spec. simpl. lia. }
        unfold empty_rank in Hy. apply lookup_replicate in Hy as [-> _]. congruence. }
      f_equal. f_equal. f_equal; [|f_equal; [|f_equal; [|f_equal]]].
      * apply (Hrow 2); [lia|done|]. intros c Hc. rewrite square_rows.
        assert (in_range (2, c) = true) as -> by (apply in_range_spec; simpl; lia). done.
      * apply (Hrow 3); [lia|done|]. intros c Hc. rewrite square_rows.
        assert (in_range (3, c) = true) as -> by (apply in_range_spec; simpl; lia). done.
      * apply (Hrow 4); [lia|done|]. intros c Hc. rewrite square_rows.
        assert (in_range (4, c) = true) as -> by (apply in_range_spec; simpl; lia). done.
      * apply (Hrow 5); [lia|done|]. intros c Hc. rewrite square_rows.
        assert (in_range (5, c) = true) as -> by (apply in_range_spec; simpl; lia). done.
Qed.

Lemma advanced_pawn_grid_wf : wf_grid advanced_pawn_grid.
Proof. split; [done|]. repeat constructor. Qed.

Lemma setup_pieces_effect_witness :
  wf_grid advanced_pawn_grid
  /\ exists g',
      Board.setup_pieces (Board.mk advanced_pawn_grid) = Ret (Board.mk g')
      /\ square g' (3, 4) = square advanced_pawn_grid (3, 4)
      /\ square g' (1, 4) = square starting_position (1, 4).
Proof.
  split; [apply advanced_pawn_grid_wf|].
  destruct (setup_pieces_effect (Board.mk advanced_pawn_grid) advanced_pawn_grid_wf)
    as (g' & Hset & _ & Hranks & Hmiddle & _).
  exists g'. split; [exact Hset|]. split.
  - apply (Hmiddle (3, 4)). simpl. lia.
  - apply (Hranks (1, 4)). simpl. lia.
Defined.

(** On an eight by eight board [is_valid_move] raises nothing of its
    own: positions off the grid, negative ones included, are answered
    false before the grid is read, and an exception that comes out of it
    was raised by the [can_move] of the piece on the start square. *)
Theorem is_valid_move_raise_origin (cls : BoardLike Board.t) (fuel : nat)
    (self : Board.t) (s e : Pos) :
  wf_grid (Board.board self) ->
  (in_range s && in_range e = false ->
   Board.is_valid_move cls fuel self s e = Some (Ret false))
  /\ (forall x, Board.is_valid_move cls fuel self s e = Some (Raise x) ->
        in_range s = true /\ in_range e = true
        /\ exists piece,
            square (Board.board self) s = Some (Some piece)
            /\ can_move fuel piece self s e = Some (Raise x)).
Proof.
  intros Hwf. split; [apply is_valid_move_out_of_range|].
  intros x Hx. destruct (in_range s && in_range e) eqn:Hr.
  2:{ by rewrite is_valid_move_out_of_range in Hx. }
  apply andb_true_iff in Hr as [Hs He]. split; [done|]. split; [done|].
  rewrite is_valid_move_on_grid in Hx by done.
  destruct (square (Board.board self) s) as [[piece|]|]; try done.
  exists piece. split; [done|].
  destruct (can_move fuel piece self s e) as [[[|]|]|]; try done.
  destruct (square (Board.board self) e) as [[t|]|]; done.
Qed.

Lemma is_valid_move_raise_origin_witness :
  wf_grid starting_position
  /\ Board.is_valid_move Board.as_written 1 (Board.mk starting_position) (-1, 0) (0, 0)
     = Some (Ret false)
  /\ exists piece,
      square starting_position (1, 4) = Some (Some piece)
      /\ can_move (cls := Board.as_written) 1 piece (Board.mk starting_position)
           (1, 4) (3, 4)
         = Some (Raise (AttributeError "Board" "is_occupied")).
Proof.
  split; [apply starting_position_wf|]. split.
  - apply (proj1 (is_valid_move_raise_origin Board.as_written 1
                    (Board.mk starting_position) (-1, 0) (0, 0)
                    starting_position_wf)).
    reflexivity.
  - destruct (proj2 (is_valid_move_raise_origin Board.as_written 1
                       (Board.mk starting_position) (1, 4) (3, 4)
                       starting_position_wf)
                    (AttributeError "Board" "is_occupied") eq_refl)
      as (_ & _ & Hpiece).
    exact Hpiece.
Defined.

(** Whatever the piece's [can_move] and the board's queries answer, a
    move that [is_valid_move] accepts is on the grid, leaves a square
    that holds a piece for another square, and ends on a square that is
    empty or holds a piece of the other colour. *)
Theorem is_valid_move_true_sound (cls : BoardLike Board.t) (fuel : nat)
    (self : Board.t) (s e : Pos) :
  wf_grid (Board.board self) ->
  Board.is_valid_move cls fuel self s e = Some (Ret true) ->
  in_range s = true /\ in_range e = true /\ s <> e
  /\ exists piece,
      square (Board.board self) s = Some (Some piece)
      /\ can_move fuel piece self s e = Some (Ret true)
      /\ (square (Board.board self) e = Some None
          \/ exists t, square (Board.board self) e = Some (Some t)
                       /\ color t <> color piece).
Proof.
  intros Hwf Hv.
  assert (s <> e) as Hne.
  { intros <-. by apply is_valid_move_same_square in Hv. }
  pose proof Hv as (Hs & He & _)%is_valid_move_true_inv.
  split; [done|]. split; [done|]. split; [done|].
  rewrite is_valid_move_on_grid in Hv by done.
  destruct (square (Board.board self) s) as [[piece|]|]; try done.
  exists piece. split; [done|].
  destruct (can_move fuel piece self s e) as [[[|]|]|]; try done.
  split; [done|].
  destruct (square_in_range _ e Hwf He) as (sq & Hsq). rewrite Hsq in Hv |- *.
  destruct sq as [t|]; [|by left]. right. exists t. split; [done|].
  intros Hc. rewrite Hc, Color_eqb_refl in Hv. done.
Qed.

Lemma is_valid_move_true_sound_witness :
  wf_grid starting_position
  /\ Board.is_valid_move completed 0 (Board.mk starting_position) (1, 4) (3, 4)
     = Some (Ret true)
  /\ exists piece,
      square starting_position (1, 4) = Some (Some piece)
      /\ can_move (cls := completed) 0 piece (Board.mk starting_position)
           (1, 4) (3, 4) = Some (Ret true)
      /\ (square starting_position (3, 4) = Some None
          \/ exists t, square starting_position (3, 4) = Some (Some t)
                       /\ color t <> color piece).
Proof.
  split; [apply starting_position_wf|].
  assert (Board.is_valid_move completed 0 (Board.mk starting_position) (1, 4) (3, 4)
          = Some (Ret true)) as Hv by (vm_compute; reflexivity).
  split; [exact Hv|].
  destruct (is_valid_move_true_sound completed 0 (Board.mk starting_position)
              (1, 4) (3, 4) starting_position_wf Hv) as (_ & _ & _ & Hpiece).
  exact Hpiece.
Defined.

(** lists: replacing one element *)
Lemma bind_insert_perm {A C} (h : A -> list C) (l : list A) (i : nat) (old x : A) :
  l !! i = Some old ->
  ((<[i:=x]> l) ≫= h) ++ h old ≡ₚ (l ≫= h) ++ h x.
Proof.
  revert i. induction l as [|a l IH]; intros [|i] Hi; simpl in *; try done.
  - injection Hi as ->. solve_Permutation.
  - rewrite <- !(assoc_L (++)). f_equiv. by apply IH.
Qed.

Lemma bind_insert_perm' {A C} (h : A -> list C) (l : list A) (i : nat)
    (old x : A) (out inn : list C) :
  l !! i = Some old -> h x ++ out ≡ₚ h old ++ inn ->
  ((<[i:=x]> l) ≫= h) ++ out ≡ₚ (l ≫= h) ++ inn.
Proof.
  intros Hi Hh.
  apply (Permutation_app_inv_r (h old)).
  pose proof (bind_insert_perm h l i old x Hi) as Hp.
  transitivity ((<[i:=x]> l ≫= h) ++ h old ++ out); [solve_Permutation|].
  transitivity (((<[i:=x]> l ≫= h) ++ h old) ++ out); [solve_Permutation|].
  rewrite Hp. rewrite <- !(assoc_L (++)). f_equiv.
  rewrite Hh. solve_Permutation.
Qed.

Lemma square_lookup (g : Grid) (p : Pos) (sq : option Piece) :
  square g p = Some sq ->
  exists row, g !! Z.to_nat (fst p) = Some row /\ row !! Z.to_nat (snd p) = Some sq.
Proof.
  unfold square. destruct (in_range p); [|done].
  destruct (g !! Z.to_nat (fst p)) as [row|]; [|done]. simpl. eauto.
Qed.

(** Writing a square changes the pieces on the grid by what leaves and
    what comes. *)
Lemma setitem2_pieces (g g' : Grid) (p : Pos) (old x : option Piece) :
  wf_grid g -> square g p = Some old -> setitem2 g p x = Ret g' ->
  pieces g' ++ option_list old ≡ₚ pieces g ++ option_list x.
Proof.
  intros Hwf Hsq Hset.
  pose proof (square_Some_in_range _ _ _ Hsq) as Hp.
  pose proof Hp as [Hr Hc]%in_range_spec.
  destruct (square_lookup g p old Hsq) as (row & Hrow & Hold).
  pose proof (wf_grid_row g _ row Hwf Hrow) as Hlen. destruct Hwf as [Hg _].
  unfold setitem2 in Hset.
  destruct (getitem_in_range g (fst p)) as (row' & Hrow' & Hget); [lia|].
  rewrite Hget in Hset.
  assert (row' = row) as -> by congruence. simpl in Hset.
  rewrite setitem_in_range in Hset by lia. simpl in Hset.
  rewrite setitem_in_range in Hset by lia. injection Hset as <-.
  unfold pieces. apply bind_insert_perm' with (old := row); [done|].
  by apply bind_insert_perm.
Qed.

(** What a [move_piece] that answered has done: nothing, or two writes. *)
Lemma move_piece_inv (cls : BoardLike Board.t) (fuel : nat)
    (self self' : Board.t) (s e : Pos) (r : res bool) :
  wf_grid (Board.board self) ->
  Board.move_piece cls fuel self s e = Some (r, self') ->
  (r <> Ret true /\ self' = self)
  \/ (r = Ret true
      /\ exists piece captured g1,
          square (Board.board self) e = Some captured
          /\ setitem2 (Board.board self) e (Some piece) = Ret g1
          /\ wf_grid g1
          /\ square g1 s = Some (Some piece)
          /\ setitem2 g1 s None = Ret (Board.board self')
          /\ wf_grid (Board.board self')).
Proof.
  intros Hwf Hmove. unfold Board.move_piece in Hmove.
  destruct (Board.is_valid_move cls fuel self s e) as [[[|]|x]|] eqn:Hv;
    [|left; by injection Hmove as <- <-..|done].
  right.
  assert (s <> e) as Hne.
  { intros <-. by apply is_valid_move_same_square in Hv. }
  pose proof Hv as (Hs & He & piece & Hget & _ & _)%is_valid_move_true_inv.
  destruct (getitem2_in_range _ _ Hwf Hs) as (sq & Hsq & Hget').
  assert (sq = Some piece) as -> by congruence.
  destruct (square_in_range _ e Hwf He) as (captured & Hcap).
  destruct (setitem2_in_range _ e (Some piece) Hwf He)
    as (g1 & Hset1 & Hwf1 & Hend1 & Hframe1).
  destruct (setitem2_in_range _ s None Hwf1 Hs)
    as (g2 & Hset2 & Hwf2 & Hstart2 & Hframe2).
  rewrite Hget, Hset1, Hset2 in Hmove. injection Hmove as <- <-. simpl.
  split; [done|]. exists piece, captured, g1.
  split; [done|]. split; [done|]. split; [done|]. split; [|done].
  rewrite Hframe1 by done. done.
Qed.

(** The pieces after the two writes of a move. *)
Lemma two_writes_pieces (g g1 g2 : Grid) (s e : Pos) (piece : Piece)
    (captured : option Piece) :
  wf_grid g -> wf_grid g1 ->
  square g e = Some captured -> setitem2 g e (Some piece) = Ret g1 ->
  square g1 s = Some (Some piece) -> setitem2 g1 s None = Ret g2 ->
  pieces g ≡ₚ option_list captured ++ pieces g2.
Proof.
  intros Hwf Hwf1 Hcap Hset1 Hs1 Hset2.
  pose proof (setitem2_pieces _ _ _ _ _ Hwf Hcap Hset1) as P1.
  pose proof (setitem2_pieces _ _ _ _ _ Hwf1 Hs1 Hset2) as P2.
  simpl in P1, P2. rewrite app_nil_r in P2.
  apply (Permutation_app_inv_r [piece]).
  rewrite <- P1, <- P2. solve_Permutation.
Qed.

(** [move_piece] keeps the board eight by eight, changes it only when it
    returns true, and then the pieces on the board are those before the
    move but for what stood on the destination: the mover is neither
    lost nor doubled, and a captured piece is gone. *)
Theorem move_piece_keeps_pieces (cls : BoardLike Board.t) (fuel : nat)
    (self self' : Board.t) (s e : Pos) (r : res bool) :
  wf_grid (Board.board self) ->
  Board.move_piece cls fuel self s e = Some (r, self') ->
  wf_grid (Board.board self')
  /\ (r <> Ret true -> self' = self)
  /\ (r = Ret true ->
      exists captured,
        square (Board.board self) e = Some captured
        /\ pieces (Board.board self)
           ≡ₚ option_list captured ++ pieces (Board.board self')).
Proof.
  intros Hwf Hmove.
  destruct (move_piece_inv _ _ _ _ _ _ _ Hwf Hmove)
    as [[Hr ->]|(-> & piece & captured & g1 & Hcap & Hset1 & Hwf1 & Hs1 & Hset2 & Hwf2)].
  - split; [done|]. split; [done|]. intros ->. done.
  - split; [done|]. split; [done|]. intros _. exists captured. split; [done|].
    by apply (two_writes_pieces _ g1 _ s e piece).
Qed.

Lemma move_piece_keeps_pieces_witness :
  wf_grid starting_position
  /\ Board.move_piece completed 0 (Board.mk starting_position) (1, 4) (3, 4)
     = Some (Ret true, Board.mk advanced_pawn_grid)
  /\ wf_grid advanced_pawn_grid
  /\ exists captured,
      square starting_position (3, 4) = Some captured
      /\ pieces starting_position ≡ₚ option_list captured ++ pieces advanced_pawn_grid.
Proof.
  split; [apply starting_position_wf|].
  assert (Board.move_piece completed 0 (Board.mk starting_position) (1, 4) (3, 4)
          = Some (Ret true, Board.mk advanced_pawn_grid)) as Hm
    by (vm_compute; reflexivity).
  split; [exact Hm|].
  destruct (move_piece_keeps_pieces completed 0 (Board.mk starting_position)
              (Board.mk advanced_pawn_grid) (1, 4) (3, 4) (Ret true)
              starting_position_wf Hm) as (Hwf & _ & Hcap).
  split; [exact Hwf|]. exact (Hcap eq_refl).
Defined.

(** Over any sequence of attempted moves the board stays eight by eight
    and the pieces on it are among those it started with: no attempt
    adds or duplicates a piece. *)
Theorem attempts_never_add_pieces (cls : BoardLike Board.t) (fuel : nat)
    (ms : list (Pos * Pos)) (self self' : Board.t) :
  wf_grid (Board.board self) ->
  attempt_all cls fuel self ms = Some self' ->
  wf_grid (Board.board self')
  /\ pieces (Board.board self') ⊆+ pieces (Board.board self).
Proof.
  revert self. induction ms as [|[s e] ms IH]; intros self Hwf Hall; simpl in Hall.
  - injection Hall as <-. done.
  - destruct (Board.move_piece cls fuel self s e) as [[r self1]|] eqn:Hm; [|done].
    destruct (move_piece_inv _ _ _ _ _ _ _ Hwf Hm)
      as [[Hr ->]|(-> & piece & captured & g1 & Hcap & Hset1 & Hwf1 & Hs1 & Hset2 & Hwf2)].
    + by apply IH.
    + destruct (IH self1 Hwf2 Hall) as [Hwf' Hsub]. split; [done|].
      etrans; [exact Hsub|].
      rewrite (two_writes_pieces _ g1 _ s e piece captured Hwf Hwf1 Hcap Hset1 Hs1 Hset2).
      by apply submseteq_inserts_l.
Qed.

Lemma attempts_never_add_pieces_witness :
  wf_grid starting_position
  /\ exists b,
      attempt_all completed 0 (Board.mk starting_position)
        [((1, 4), (3, 4)); ((6, 3), (4, 3)); ((3, 4), (4, 3))] = Some b
      /\ square (Board.board b) (4, 3) = Some (Some (mkPiece Pawn WHITE))
      /\ pieces (Board.board b) ⊆+ pieces starting_position.
Proof.
  split; [apply starting_position_wf|].
  eexists. split; [vm_compute; reflexivity|]. split; [vm_compute; reflexivity|].
  refine (proj2 (attempts_never_add_pieces completed 0
                   [((1, 4), (3, 4)); ((6, 3), (4, 3)); ((3, 4), (4, 3))]
                   (Board.mk starting_position) _ starting_position_wf _)).
  vm_compute. reflexivity.
Defined.

(** On class [Board] as written no sequence of [move_piece] calls
    changes the board: every call ends, by false or by an exception, and
    leaves the grid as it was. *)
Theorem as_written_board_never_changes (fuel : nat) (ms : list (Pos * Pos))
    (self : Board.t) :
  attempt_all Board.as_written (S fuel) self ms = Some self.
Proof.
  induction ms as [|[s e] ms IH]; [done|]. simpl.
  assert (exists r, Board.is_valid_move Board.as_written (S fuel) self s e = Some r
                    /\ r <> Ret true) as (r & Hv & Hr).
  { destruct (Board.is_valid_move Board.as_written (S fuel) self s e)
      as [r|] eqn:Hv.
    - exists r. split; [done|]. intros ->.
      by apply is_valid_move_as_written_not_true in Hv.
    - exfalso. unfold Board.is_valid_move in Hv.
      destruct (negb _); [done|].
      destruct (getitem2 _ _) as [[piece|]|]; try done.
      destruct (can_move_as_written_ends fuel piece self s e) as (r & Hr).
      rewrite Hr in Hv. destruct r as [[|]|]; try done.
      destruct (getitem2 _ _) as [[t|]|]; try done.
      by destruct (Color_eqb _ _). }
  unfold Board.move_piece. rewrite Hv.
  destruct r as [[|]|]; done.
Qed.

Lemma Bishop_moves_diagonally {B : Type} {cls : BoardLike B} (fuel : nat)
    (self : Piece) (board : B) (s e : Pos) :
  Bishop.can_move fuel self board s e = Some (Ret true) ->
  same_diagonal s e /\ s <> e.
Proof.
  intros Hb.
  assert (s <> e) as Hne.
  { intros <-. by apply Bishop_same_square_not_true in Hb. }
  split; [|done]. rewrite Bishop_steps in Hb by done. unfold same_diagonal.
  by destruct (Z.eqb_spec (Z.abs (fst e - fst s)) (Z.abs (snd e - snd s))).
Qed.

Lemma Knight_moves_in_L {B : Type} {cls : BoardLike B}
    (self : Piece) (board : B) (s e : Pos) :
  Knight.can_move self board s e = Ret true ->
  (Z.abs (fst e - fst s) = 2 /\ Z.abs (snd e - snd s) = 1)
  \/ (Z.abs (fst e - fst s) = 1 /\ Z.abs (snd e - snd s) = 2).
Proof.
  destruct s as [sr sc], e as [er ec]. unfold Knight.can_move. simpl.
  destruct (Z.eqb_spec (Z.abs (er - sr)) 2), (Z.eqb_spec (Z.abs (ec - sc)) 1),
    (Z.eqb_spec (Z.abs (er - sr)) 1), (Z.eqb_spec (Z.abs (ec - sc)) 2);
    simpl; try done; tauto.
Qed.

Lemma Pawn_moves_forward {B : Type} {cls : BoardLike B}
    (self : Piece) (board : B) (s e : Pos) :
  Pawn.can_move self board s e = Ret true ->
  (snd e - snd s = 0 /\ fst e - fst s = forward (color self))
  \/ (snd e - snd s = 0 /\ fst e - fst s = 2 * forward (color self)
      /\ fst s = home_row (color self))
  \/ (Z.abs (snd e - snd s) = 1 /\ fst e - fst s = forward (color self)).
Proof.
  destruct s as [sr sc], e as [er ec]. unfold Pawn.can_move, Pawn.on_home_row.
  simpl fst; simpl snd.
  destruct (color self); simpl Color_eqb; simpl forward; simpl home_row; cbv iota.
  - destruct (Z.eqb_spec sc ec).
    + destruct (Z.eqb_spec (sr + 1) er); [intros _; left; lia|].
      destruct (Z.eqb_spec (sr + 2 * 1) er), (Z.eqb_spec sr 1); simpl; try done.
      intros _. right; left. lia.
    + destruct (Z.eqb_spec (Z.abs (sc - ec)) 1), (Z.eqb_spec (sr + 1) er);
        simpl; try done.
      intros _. right; right. lia.
  - destruct (Z.eqb_spec sc ec).
    + destruct (Z.eqb_spec (sr + -1) er); [intros _; left; lia|].
      destruct (Z.eqb_spec (sr + 2 * -1) er), (Z.eqb_spec sr 6); simpl; try done.
      intros _. right; left. lia.
    + destruct (Z.eqb_spec (Z.abs (sc - ec)) 1), (Z.eqb_spec (sr + -1) er);
        simpl; try done.
      intros _. right; right. lia.
Qed.

(** On any board, a piece is told it may move only along its own
    geometry: the king one step, the rook along a row or column, the
    bishop along a diagonal to another square, the queen along either,
    the knight by (2,1) or (1,2), the pawn forward by one, forward by two
    from its home row, or diagonally forward by one. *)
Theorem can_move_true_geometry {B : Type} {cls : BoardLike B} (fuel : nat)
    (self : Piece) (board : B) (s e : Pos) :
  can_move fuel self board s e = Some (Ret true) -> geometry self s e.
Proof.
  unfold can_move, geometry. destruct (kind self) eqn:Hk.
  - destruct s as [sr sc], e as [er ec]. unfold King.can_move. simpl.
    destruct (Z.leb_spec (Z.abs (er - sr)) 1), (Z.leb_spec (Z.abs (ec - sc)) 1);
      simpl; try done.
  - rewrite Queen_steps. unfold same_line, same_diagonal.
    destruct (Z.eqb_spec (fst s) (fst e)), (Z.eqb_spec (snd s) (snd e)),
      (Z.eqb_spec (Z.abs (fst e - fst s)) (Z.abs (snd e - snd s)));
      simpl; try done; tauto.
  - rewrite Rook_steps. unfold same_line.
    destruct (Z.eqb_spec (fst s) (fst e)), (Z.eqb_spec (snd s) (snd e));
      simpl; try done; tauto.
  - apply Bishop_moves_diagonally.
  - intros [= Hn]. by apply Knight_moves_in_L in Hn.
  - intros [= Hp]. by apply Pawn_moves_forward in Hp.
Qed.

Lemma can_move_true_geometry_witness :
  can_move (cls := completed) 0 (mkPiece Knight WHITE) (Board.mk starting_position)
    (0, 1) (2, 2) = Some (Ret true)
  /\ geometry (mkPiece Knight WHITE) (0, 1) (2, 2).
Proof.
  assert (can_move (cls := completed) 0 (mkPiece Knight WHITE)
            (Board.mk starting_position) (0, 1) (2, 2) = Some (Ret true)) as Hc
    by (vm_compute; reflexivity).
  split; [exact Hc|].
  exact (can_move_true_geometry 0 (mkPiece Knight WHITE)
           (Board.mk starting_position) (0, 1) (2, 2) Hc).
Defined.

Lemma free_or_enemy_color {B} {cls : BoardLike B} (a b : Piece) (board : B) (e : Pos) :
  color a = color b -> free_or_enemy a board e = free_or_enemy b board e.
Proof. intros Hc. unfold free_or_enemy. by rewrite Hc. Qed.

Lemma slide_color {B} {cls : BoardLike B} (fuel : nat) (a b : Piece) (board : B)
    (s step e : Pos) :
  color a = color b -> slide fuel a board s step e = slide fuel b board s step e.
Proof.
  intros Hc. unfold slide. by rewrite (free_or_enemy_color a b _ _ Hc).
Qed.

(** On any board the queen's [can_move] is the rook's along a row or a
    column and the bishop's along a diagonal to another square, for
    pieces of one colour, and is false off both. *)
Theorem Queen_is_Rook_or_Bishop {B : Type} {cls : BoardLike B} (fuel : nat)
    (queen other : Piece) (board : B) (s e : Pos) :
  color queen = color other ->
  (same_line s e ->
   Queen.can_move fuel queen board s e = Rook.can_move fuel other board s e)
  /\ (same_diagonal s e -> s <> e ->
      Queen.can_move fuel queen board s e = Bishop.can_move fuel other board s e)
  /\ (~ same_line s e -> ~ same_diagonal s e ->
      Queen.can_move fuel queen board s e = Some (Ret false)).
Proof.
  intros Hc. rewrite Queen_steps, Rook_steps.
  unfold same_line, same_diagonal. split; [|split].
  - intros Hl.
    assert ((fst s =? fst e) || (snd s =? snd e) = true) as ->.
    { apply orb_true_iff. rewrite !Z.eqb_eq. done. }
    simpl. by apply slide_color.
  - intros Hd Hne. rewrite Bishop_steps by done.
    apply Z.eqb_eq in Hd. rewrite Hd, orb_true_r. by apply slide_color.
  - intros Hl Hd.
    destruct (Z.eqb_spec (fst s) (fst e)), (Z.eqb_spec (snd s) (snd e)),
      (Z.eqb_spec (Z.abs (fst e - fst s)) (Z.abs (snd e - snd s)));
      simpl; tauto.
Qed.

Lemma Queen_is_Rook_or_Bishop_witness :
  color (mkPiece Queen WHITE) = color (mkPiece Rook WHITE)
  /\ same_line (0, 3) (0, 0)
  /\ Queen.can_move (cls := completed) 8 (mkPiece Queen WHITE)
       (Board.mk starting_position) (0, 3) (0, 0)
     = Rook.can_move (cls := completed) 8 (mkPiece Rook WHITE)
         (Board.mk starting_position) (0, 3) (0, 0).
Proof.
  split; [reflexivity|]. split; [by left|].
  apply (proj1 (Queen_is_Rook_or_Bishop (cls := completed) 8 (mkPiece Queen WHITE)
                  (mkPiece Rook WHITE) (Board.mk starting_position) (0, 3) (0, 0)
                  eq_refl)).
  by left.
Defined.

Lemma aligned_apart_distance (s e : Pos) :
  same_line s e \/ same_diagonal s e -> s <> e -> 1 <= distance s e.
Proof.
  intros _ Hne. unfold distance. destruct s as [sr sc], e as [er ec]. simpl.
  destruct (decide (sr = er)), (decide (sc = ec)); [congruence|lia..].
Qed.

Lemma slide_start (s e : Pos) :
  (fst s + fst (Z.sgn (fst e - fst s), Z.sgn (snd e - snd s)),
   snd s + snd (Z.sgn (fst e - fst s), Z.sgn (snd e - snd s)))
  = toward s e (0 + 1).
Proof. unfold toward. destruct s. simpl. f_equal; lia. Qed.

(** The walk toward an aligned destination ends within the distance,
    whatever the board answers. *)
Lemma walk_ends {B} {cls : BoardLike B} (board : B) (s e : Pos) :
  same_line s e \/ same_diagonal s e ->
  forall (fuel : nat) (j : Z),
    1 <= j <= distance s e -> distance s e - j <= Z.of_nat fuel ->
    walk fuel board (toward s e j)
         (Z.sgn (fst e - fst s), Z.sgn (snd e - snd s)) e <> None.
Proof.
  intros Hal.
  assert (forall fuel j, j = distance s e ->
            walk fuel board (toward s e j)
              (Z.sgn (fst e - fst s), Z.sgn (snd e - snd s)) e <> None) as Hend.
  { intros fuel j ->. rewrite toward_arrives by done.
    destruct fuel; simpl; by rewrite Pos_eqb_refl. }
  induction fuel as [|fuel IH]; intros j Hj Hf.
  { apply Hend. lia. }
  destruct (decide (j = distance s e)) as [Heq|Hne]; [by apply Hend|].
  rewrite walk_S.
  assert (Pos_eqb (toward s e j) e = false) as ->.
  { apply Pos_eqb_neq, toward_not_yet; [done|lia]. }
  destruct (is_occupied board (toward s e j)) as [[|]|]; try done.
  rewrite (toward_next s e j _ eq_refl). apply IH; lia.
Qed.

Lemma slide_ends {B} {cls : BoardLike B} (fuel : nat) (self : Piece) (board : B)
    (s e : Pos) :
  same_line s e \/ same_diagonal s e -> s <> e ->
  distance s e <= Z.of_nat fuel ->
  slide fuel self board s (Z.sgn (fst e - fst s), Z.sgn (snd e - snd s)) e <> None.
Proof.
  intros Hal Hne Hfuel. pose proof (aligned_apart_distance s e Hal Hne) as Hd.
  unfold slide. rewrite slide_start.
  pose proof (walk_ends board s e Hal fuel (0 + 1) ltac:(lia) ltac:(lia)) as Hw.
  destruct (walk fuel board (toward s e (0 + 1)) _ e) as [[[|]|]|]; done.
Qed.

(** On any board, whatever its queries answer, [can_move] ends within
    as many steps of the walk as start and end are apart, for every
    piece and every pair of positions except a bishop asked about its
    own square. *)
Theorem can_move_ends {B : Type} {cls : BoardLike B} (fuel : nat)
    (self : Piece) (board : B) (s e : Pos) :
  distance s e <= Z.of_nat fuel ->
  (kind self = Bishop -> s <> e) ->
  exists r, can_move fuel self board s e = Some r.
Proof.
  intros Hfuel Hb.
  assert (forall c : comp bool, c <> None -> exists r, c = Some r) as Hsome.
  { intros [r|] Hc; [eauto|done]. }
  unfold can_move. destruct (kind self); try (eexists; reflexivity).
  - destruct (decide (s = e)) as [->|Hne].
    { rewrite Queen_same_square. eauto. }
    rewrite Queen_steps.
    destruct (_ || _ || _) eqn:Hal; [|eauto].
    apply Hsome, slide_ends; try done.
    rewrite !orb_true_iff, !Z.eqb_eq in Hal. unfold same_line, same_diagonal. tauto.
  - destruct (decide (s = e)) as [->|Hne].
    { rewrite Rook_same_square. eauto. }
    rewrite Rook_steps.
    destruct (_ || _) eqn:Hal; [|eauto].
    apply Hsome, slide_ends; try done.
    rewrite !orb_true_iff, !Z.eqb_eq in Hal. unfold same_line. tauto.
  - specialize (Hb eq_refl). rewrite Bishop_steps by done.
    destruct (_ =? _) eqn:Hal; [|eauto].
    apply Hsome, slide_ends; try done.
    rewrite Z.eqb_eq in Hal. unfold same_diagonal. tauto.
Qed.

Lemma can_move_ends_witness :
  distance (0, 0) (0, 4) <= Z.of_nat 4
  /\ exists r,
      can_move (cls := Board.as_written) 4 (mkPiece Rook WHITE)
        (Board.mk starting_position) (0, 0) (0, 4) = Some r.
Proof.
  assert (distance (0, 0) (0, 4) <= Z.of_nat 4) as Hd by (vm_compute; discriminate).
  split; [exact Hd|].
  apply (can_move_ends (cls := Board.as_written) 4 (mkPiece Rook WHITE)
           (Board.mk starting_position) (0, 0) (0, 4) Hd).
  discriminate.
Defined.

Section TwoBoards.
Context {B1 B2 : Type} {c1 : BoardLike B1} {c2 : BoardLike B2}.
Context (b1 : B1) (b2 : B2).

Lemma free_or_enemy_alike (self : Piece) (e : Pos) :
  alike b1 b2 e -> free_or_enemy self b1 e = free_or_enemy self b2 e.
Proof. intros [Ho Hg]. unfold free_or_enemy. by rewrite Ho, Hg. Qed.

Lemma walk_alike (s e : Pos) :
  same_line s e \/ same_diagonal s e ->
  (forall k, 1 <= k < distance s e -> alike b1 b2 (toward s e k)) ->
  forall (fuel : nat) (j : Z),
    1 <= j <= distance s e ->
    walk fuel b1 (toward s e j) (Z.sgn (fst e - fst s), Z.sgn (snd e - snd s)) e
    = walk fuel b2 (toward s e j) (Z.sgn (fst e - fst s), Z.sgn (snd e - snd s)) e.
Proof.
  intros Hal Hsame. induction fuel as [|fuel IH]; intros j Hj; [done|].
  rewrite !walk_S. destruct (Pos_eqb (toward s e j) e) eqn:Hje; [done|].
  assert (j <> distance s e) as Hne.
  { intros ->. rewrite toward_arrives, Pos_eqb_refl in Hje; done. }
  destruct (Hsame j ltac:(lia)) as [-> _].
  destruct (is_occupied b2 (toward s e j)) as [[|]|]; try done.
  rewrite (toward_next s e j _ eq_refl). apply IH. lia.
Qed.

Lemma slide_alike (fuel : nat) (self : Piece) (s e : Pos) :
  same_line s e \/ same_diagonal s e -> s <> e ->
  alike b1 b2 e -> (forall k, 1 <= k < distance s e -> alike b1 b2 (toward s e k)) ->
  slide fuel self b1 s (Z.sgn (fst e - fst s), Z.sgn (snd e - snd s)) e
  = slide fuel self b2 s (Z.sgn (fst e - fst s), Z.sgn (snd e - snd s)) e.
Proof.
  intros Hal Hne He Hsame. pose proof (aligned_apart_distance s e Hal Hne) as Hd.
  unfold slide. rewrite slide_start.
  rewrite (walk_alike s e Hal Hsame fuel (0 + 1)) by lia.
  by rewrite (free_or_enemy_alike self e He).
Qed.

(** The answer of [can_move] depends on the board only through the
    squares the piece asks about: the destination, the squares strictly
    between for queen, rook and bishop, and the square ahead for a pawn.
    Two boards that answer alike there get the same answer; a knight or a
    king, in particular, is blind to every square but the destination. *)
Theorem can_move_local (fuel : nat) (self : Piece) (s e : Pos) :
  (kind self = Bishop -> s <> e) ->
  (forall p, asked self s e p -> alike b1 b2 p) ->
  can_move fuel self b1 s e = can_move fuel self b2 s e.
Proof.
  intros Hb Hsame.
  assert (alike b1 b2 e) as He by (apply Hsame; by left).
  pose proof (free_or_enemy_alike self e He) as Hfe.
  unfold can_move, asked in *. destruct (kind self) eqn:Hk.
  - destruct s as [sr sc], e as [er ec]. unfold King.can_move. by rewrite Hfe.
  - destruct (decide (s = e)) as [->|Hne].
    { by rewrite !Queen_same_square, Hfe. }
    rewrite !Queen_steps. destruct (_ || _ || _) eqn:Hal; [|done].
    apply slide_alike; try done.
    + rewrite !orb_true_iff, !Z.eqb_eq in Hal. unfold same_line, same_diagonal. tauto.
    + intros k Hk'. apply Hsame. right. eauto.
  - destruct (decide (s = e)) as [->|Hne].
    { by rewrite !Rook_same_square, Hfe. }
    rewrite !Rook_steps. destruct (_ || _) eqn:Hal; [|done].
    apply slide_alike; try done.
    + rewrite !orb_true_iff, !Z.eqb_eq in Hal. unfold same_line. tauto.
    + intros k Hk'. apply Hsame. right. eauto.
  - specialize (Hb eq_refl). rewrite !Bishop_steps by done.
    destruct (_ =? _) eqn:Hal; [|done].
    apply slide_alike; try done.
    + rewrite Z.eqb_eq in Hal. unfold same_diagonal. tauto.
    + intros k Hk'. apply Hsame. right. eauto.
  - destruct s as [sr sc], e as [er ec]. unfold Knight.can_move. by rewrite Hfe.
  - destruct He as [Hoe Hge].
    destruct (Hsame (fst s + forward (color self), snd s)) as [Hom _]; [by right|].
    destruct s as [sr sc], e as [er ec]. unfold Pawn.can_move.
    simpl fst in *; simpl snd in *. rewrite Hoe, Hge.
    unfold forward in Hom. destruct (color self); simpl Color_eqb; cbv iota;
      by rewrite Hom.
Qed.
End TwoBoards.

Lemma can_move_local_witness :
  alike (c1 := completed) (c2 := completed) (Board.mk starting_position)
    (Board.mk advanced_pawn_grid) (2, 2)
  /\ can_move (cls := completed) 0 (mkPiece Knight WHITE)
       (Board.mk starting_position) (0, 1) (2, 2)
     = can_move (cls := completed) 0 (mkPiece Knight WHITE)
         (Board.mk advanced_pawn_grid) (0, 1) (2, 2).
Proof.
  assert (alike (c1 := completed) (c2 := completed) (Board.mk starting_position)
            (Board.mk advanced_pawn_grid) (2, 2)) as Ha by (split; reflexivity).
  split; [exact Ha|].
  apply (can_move_local (c1 := completed) (c2 := completed)
           (Board.mk starting_position) (Board.mk advanced_pawn_grid)
           0 (mkPiece Knight WHITE) (0, 1) (2, 2)).
  - discriminate.
  - intros p [->|[]]. exact Ha.
Defined.

Lemma class_name_inj : Inj (=) (=) Board.class_name.
Proof. intros [] []; simpl; intros H; congruence. Qed.

(** [to_json] of an eight by eight board is eight rows of eight entries,
    and the entry of a square is the class name of the piece on it, or
    [None] for an empty square. *)
Theorem to_json_squares (self : Board.t) (p : Pos) :
  wf_grid (Board.board self) -> in_range p = true ->
  length (Board.to_json self) = 8%nat
  /\ Forall (fun row => length row = 8%nat) (Board.to_json self)
  /\ exists sq,
      square (Board.board self) p = Some sq
      /\ Board.to_json self !! Z.to_nat (fst p) ≫= (.!! Z.to_nat (snd p))
         = Some (if sq is Some q then Some (Board.class_name (kind q)) else None).
Proof.
  intros Hwf Hp. unfold Board.to_json. destruct Hwf as [Hlen Hrows].
  split; [by rewrite length_map|]. split.
  { apply Forall_fmap. eapply Forall_impl; [exact Hrows|].
    intros row Hrow. simpl. by rewrite length_map. }
  destruct (square_in_range _ p (conj Hlen Hrows) Hp) as (sq & Hsq).
  exists sq. split; [done|].
  unfold square in Hsq. rewrite Hp in Hsq.
  rewrite list_lookup_fmap.
  destruct (Board.board self !! Z.to_nat (fst p)) as [row|]; [|done]. simpl in *.
  rewrite list_lookup_fmap, Hsq. done.
Qed.

Lemma to_json_squares_witness :
  wf_grid starting_position /\ in_range (0, 4) = true
  /\ exists sq,
      square starting_position (0, 4) = Some sq
      /\ Board.to_json (Board.mk starting_position) !! 0%nat ≫= (.!! 4%nat)
         = Some (if sq is Some q then Some (Board.class_name (kind q)) else None).
Proof.
  split; [apply starting_position_wf|]. split; [reflexivity|].
  destruct (to_json_squares (Board.mk starting_position) (0, 4)
              starting_position_wf eq_refl) as (_ & _ & Hsq).
  exact Hsq.
Defined.

Lemma map_injective {A C} (f : A -> C) (l1 l2 : list A) :
  (forall x y, f x = f y -> x = y) -> map f l1 = map f l2 -> l1 = l2.
Proof.
  intros Hf. revert l2. induction l1 as [|a l1 IH]; intros [|b l2] Heq;
    simpl in Heq; try done.
  injection Heq as Hab Heq. f_equal; [by apply Hf|by apply IH].
Qed.

(** [to_json] tells the kind of piece on each square and nothing else:
    two boards have the same view exactly when they hold the same kinds
    on the same squares, whatever the colours. *)
Theorem to_json_tells_kinds_only (b1 b2 : Board.t) :
  Board.to_json b1 = Board.to_json b2
  <-> kinds (Board.board b1) = kinds (Board.board b2).
Proof.
  unfold Board.to_json, kinds.
  assert (forall g : Grid,
            map (map (fun piece : option Piece =>
                        if piece is Some p then Some (Board.class_name (kind p))
                        else None)) g
            = map (map (option_map Board.class_name))
                  (map (map (option_map kind)) g)) as Hsplit.
  { intros g. rewrite map_map. apply map_ext. intros row.
    rewrite map_map. apply map_ext. by intros [q|]. }
  rewrite !Hsplit. split; [|by intros ->].
  apply map_injective. intros r1 r2. apply map_injective.
  intros [k1|] [k2|]; simpl; try done.
  intros [= Hk]. f_equal. by apply class_name_inj.
Qed.

(** Any sequence of [start_game], [move] and [end_game] calls on a game
    with an eight by eight board goes through without an exception; the
    board afterwards is [setup_pieces] of the board before if
    [start_game] was among the calls, with White to move, and the board
    before otherwise, with the turn as it was. *)
Theorem game_calls_effect (cs : list call) (self : Game.t) :
  wf_grid (Board.board (Game.board self)) ->
  exists self',
    perform_all self cs = Ret self'
    /\ wf_grid (Board.board (Game.board self'))
    /\ if existsb is_start cs
       then Board.setup_pieces (Game.board self) = Ret (Game.board self')
            /\ Game.current_turn self' = WHITE
       else Game.board self' = Game.board self
            /\ Game.current_turn self' = Game.current_turn self.
Proof.
  revert self. induction cs as [|c cs IH]; intros self Hwf.
  { exists self. done. }
  destruct c as [|player s e|].
  - destruct (setup_pieces_total _ Hwf) as (g1 & Hset & Hwf1 & _ & Hidem).
    destruct (IH (Game.mk (Board.mk g1) WHITE false) Hwf1)
      as (self' & Hrun & Hwf' & Hcs).
    exists self'. simpl. unfold Game.start_game. rewrite Hset. simpl.
    split; [exact Hrun|]. split; [done|].
    destruct (existsb is_start cs); simpl in Hcs; destruct Hcs as [Hb Ht].
    + split; [|done]. congruence.
    + by rewrite Hb, Ht.
  - destruct (IH self Hwf) as (self' & Hrun & Hwf' & Hcs).
    exists self'. simpl. done.
  - destruct (IH (Game.mk (Game.board self) (Game.current_turn self) true) Hwf)
      as (self' & Hrun & Hwf' & Hcs).
    exists self'. simpl. done.
Qed.

Lemma game_calls_effect_witness :
  wf_grid advanced_pawn_grid
  /\ exists self',
      perform_all (Game.mk (Board.mk advanced_pawn_grid) BLACK true)
        [CallEnd; CallStart; CallMove WHITE (1, 4) (3, 4)] = Ret self'
      /\ Board.setup_pieces (Board.mk advanced_pawn_grid) = Ret (Game.board self')
      /\ Game.current_turn self' = WHITE.
Proof.
  split; [apply advanced_pawn_grid_wf|].
  destruct (game_calls_effect [CallEnd; CallStart; CallMove WHITE (1, 4) (3, 4)]
              (Game.mk (Board.mk advanced_pawn_grid) BLACK true)
              advanced_pawn_grid_wf) as (self' & Hrun & _ & Hb & Ht).
  exists self'. split; [exact Hrun|]. split; [exact Hb|exact Ht].
Defined.

Lemma setup_pieces_starting_position :
  Board.setup_pieces (Board.mk starting_position) = Ret (Board.mk starting_position).
Proof. vm_compute. reflexivity. Qed.

(** A game made by [Game()] stays on the starting position with White
    to move through any sequence of [start_game], [move] and [end_game]
    calls. *)
Theorem fresh_game_never_advances (cs : list call) :
  exists g0 g',
    Game.init = Ret g0 /\ perform_all g0 cs = Ret g'
    /\ Game.board g' = Board.mk starting_position
    /\ Game.current_turn g' = WHITE.
Proof.
  exists (Game.mk (Board.mk starting_position) WHITE false).
  assert (forall cs g,
            Game.board g = Board.mk starting_position ->
            Game.current_turn g = WHITE ->
            exists g', perform_all g cs = Ret g'
                       /\ Game.board g' = Board.mk starting_position
                       /\ Game.current_turn g' = WHITE) as Hinv.
  { clear cs. induction cs as [|c cs IH]; intros g Hb Ht; [by exists g|].
    destruct c as [|player s e|]; simpl.
    - unfold Game.start_game. rewrite Hb, setup_pieces_starting_position. simpl.
      by apply IH.
    - by apply IH.
    - by apply IH. }
  destruct (Hinv cs (Game.mk (Board.mk starting_position) WHITE false)
              eq_refl eq_refl) as (g' & Hrun & Hb & Ht).
  exists g'. split; [reflexivity|]. done.
Qed.

(** With the module as written, where the global [game] is never bound,
    [start_game], [end_game] and [get_board] fail with [NameError] on
    every request of every sequence, [move] returns [None], and the name
    stays unbound. *)
Theorem endpoints_as_written (rs : list endpoint) :
  handle_all Endpoints.as_written rs = (map answer_unbound rs, Endpoints.as_written).
Proof.
  induction rs as [|r rs IH]; [done|]. simpl.
  destruct r; simpl; by rewrite IH.
Qed.

(** With [game] bound to a game on the starting position, the answers
    to a sequence of requests do not depend on what was requested
    before: [get_board] serves the view of the starting position every
    time. *)
Theorem endpoints_serve_starting_position (rs : list endpoint) (g : Game.t) :
  Game.board g = Board.mk starting_position ->
  fst (handle_all (Some g) rs) = map answer_fresh rs.
Proof.
  revert g. induction rs as [|r rs IH]; intros g Hg; [done|].
  simpl. destruct r as [|m| |]; simpl.
  - unfold Game.start_game. rewrite Hg, setup_pieces_starting_position.
    simpl. specialize (IH (Game.mk (Board.mk starting_position) WHITE false) eq_refl).
    destruct (handle_all _ rs). simpl in *. by rewrite IH.
  - specialize (IH g Hg). destruct (handle_all _ rs). simpl in *. by rewrite IH.
  - specialize (IH (Game.mk (Game.board g) (Game.current_turn g) true) Hg).
    destruct (handle_all _ rs). simpl in *. by rewrite IH.
  - specialize (IH g Hg). destruct (handle_all _ rs). simpl in *. by rewrite IH, Hg.
Qed.

Lemma endpoints_serve_starting_position_witness :
  Game.board (Game.mk (Board.mk starting_position) WHITE false)
  = Board.mk starting_position
  /\ fst (handle_all (Some (Game.mk (Board.mk starting_position) WHITE false))
            [GetBoard; PostMove (mkMove (1, 4) (3, 4)); PostEndGame;
             PostStartGame; GetBoard])
     = map answer_fresh
         [GetBoard; PostMove (mkMove (1, 4) (3, 4)); PostEndGame;
          PostStartGame; GetBoard].
Proof.
  split; [reflexivity|].
  apply (endpoints_serve_starting_position
           [GetBoard; PostMove (mkMove (1, 4) (3, 4)); PostEndGame;
            PostStartGame; GetBoard]
           (Game.mk (Board.mk starting_position) WHITE false) eq_refl).
Defined.

Lemma free_or_enemy_true (cls : BoardLike Board.t) (self : Piece)
    (board : Board.t) (e : Pos) :
  truthful cls -> free_or_enemy self board e = Ret true ->
  free_or_other (Board.board board) self e.
Proof.
  intros Htr. destruct (Htr board e) as [Hocc Hget]. unfold free_or_enemy.
  destruct (is_occupied board e) as [b|] eqn:Hb; [|done].
  destruct (Hocc b eq_refl) as (sq & Hsq & ->). simpl.
  destruct sq as [q|]; simpl; [|intros _; by left].
  destruct (get_piece board e) as [t|] eqn:Ht; [|done]. simpl.
  rewrite (Hget t eq_refl) in Hsq. injection Hsq as ->.
  intros [= Hc]. right. exists q. split; [by apply Hget|].
  intros Heq. by rewrite Heq, Color_eqb_refl in Hc.
Qed.

Lemma slide_true {B} {cls : BoardLike B} (fuel : nat) (self : Piece) (board : B)
    (s step e : Pos) :
  slide fuel self board s step e = Some (Ret true) ->
  free_or_enemy self board e = Ret true.
Proof.
  unfold slide. destruct (walk _ _ _ _ _) as [[[|]|]|]; try done. congruence.
Qed.

(** On a board whose queries do not lie, a piece is told it may move
    only to a square that is empty or holds a piece of the other colour:
    no [can_move] allows the capture of the mover's own colour.  So the
    colour test that [is_valid_move] makes itself never changes the
    answer: on the grid, with a piece on the start square,
    [is_valid_move] returns what that piece's [can_move] returns. *)
Theorem no_capture_of_own_colour (cls : BoardLike Board.t) :
  truthful cls ->
  (forall (fuel : nat) (self : Piece) (board : Board.t) (s e : Pos),
      can_move fuel self board s e = Some (Ret true) ->
      free_or_other (Board.board board) self e)
  /\ (forall (fuel : nat) (self : Board.t) (s e : Pos) (piece : Piece),
        wf_grid (Board.board self) ->
        in_range s = true -> in_range e = true ->
        square (Board.board self) s = Some (Some piece) ->
        Board.is_valid_move cls fuel self s e = can_move fuel piece self s e).
Proof.
  intros Htr.
  assert (forall (fuel : nat) (self : Piece) (board : Board.t) (s e : Pos),
             can_move fuel self board s e = Some (Ret true) ->
             free_or_other (Board.board board) self e) as Hdest.
  { intros fuel self board s e.
    pose proof (free_or_enemy_true cls self board e Htr) as Hfe.
    unfold can_move. destruct (kind self).
    - destruct s as [sr sc], e as [er ec]. unfold King.can_move.
      destruct (_ && _); [|done]. intros [= H]. by apply Hfe.
    - rewrite Queen_steps. destruct (_ || _ || _); [|done].
      intros H%slide_true. by apply Hfe.
    - rewrite Rook_steps. destruct (_ || _); [|done].
      intros H%slide_true. by apply Hfe.
    - destruct s as [sr sc], e as [er ec]. unfold Bishop.can_move.
      destruct (_ =? _); [|done]. intros H%slide_true. by apply Hfe.
    - destruct s as [sr sc], e as [er ec]. unfold Knight.can_move.
      destruct (_ || _); [|done]. intros [= H]. by apply Hfe.
    - destruct (Htr board e) as [Hocc Hget].
      assert (forall m : res bool,
                (m = is_occupied board e) ->
                (b ← m; Ret (negb b)) = Ret true ->
                free_or_other (Board.board board) self e) as Hstraight.
      { intros m -> H. destruct (is_occupied board e) as [b|] eqn:Hb; [|done].
        destruct (Hocc b eq_refl) as (sq & Hsq & ->).
        destruct sq; [done|]. by left. }
      destruct s as [sr sc], e as [er ec]. unfold Pawn.can_move.
      destruct (sc =? ec).
      + destruct (_ =? _).
        { intros [= H]. by apply (Hstraight _ eq_refl). }
        destruct (_ && _); [|done].
        destruct (is_occupied board (_, sc)) as [[|]|]; simpl; try done.
        intros [= H]. by apply (Hstraight _ eq_refl).
      + destruct (_ && _); [|done].
        destruct (get_piece board (er, ec)) as [[t|]|] eqn:Ht; simpl; try done.
        intros [= Hc]. right. exists t. split; [by apply Hget|].
        intros Heq. by rewrite Heq, Color_eqb_refl in Hc. }
  split; [exact Hdest|].
  intros fuel self s e piece Hwf Hs He Hsq.
  rewrite is_valid_move_on_grid, Hsq by done.
  destruct (can_move fuel piece self s e) as [[[|]|]|] eqn:Hcan; try done.
  destruct (Hdest fuel piece self s e Hcan) as [->|(t & -> & Hc)]; [done|].
  destruct (Color_eqb (color t) (color piece)) eqn:Heq; [|done].
  by apply Color_eqb_eq in Heq.
Qed.

Lemma no_capture_of_own_colour_witness :
  truthful completed
  /\ can_move (cls := completed) 8 (mkPiece Queen WHITE)
       (Board.mk advanced_pawn_grid) (0, 3) (4, 7) = Some (Ret true)
  /\ free_or_other advanced_pawn_grid (mkPiece Queen WHITE) (4, 7)
  /\ wf_grid starting_position
  /\ square starting_position (1, 4) = Some (Some (mkPiece Pawn WHITE))
  /\ Board.is_valid_move completed 0 (Board.mk starting_position) (1, 4) (3, 4)
     = can_move (cls := completed) 0 (mkPiece Pawn WHITE)
         (Board.mk starting_position) (1, 4) (3, 4).
Proof.
  split; [apply completed_truthful|].
  assert (can_move (cls := completed) 8 (mkPiece Queen WHITE)
            (Board.mk advanced_pawn_grid) (0, 3) (4, 7) = Some (Ret true)) as Hc
    by (vm_compute; reflexivity).
  split; [exact Hc|]. split.
  { exact (proj1 (no_capture_of_own_colour completed completed_truthful)
             8%nat (mkPiece Queen WHITE) (Board.mk advanced_pawn_grid) (0, 3) (4, 7) Hc). }
  split; [apply starting_position_wf|]. split; [reflexivity|].
  exact (proj2 (no_capture_of_own_colour completed completed_truthful)
           0%nat (Board.mk starting_position) (1, 4) (3, 4) (mkPiece Pawn WHITE)
           starting_position_wf eq_refl eq_refl eq_refl).
Defined.

(** ** Symmetry, the far rank, square colours *)

Lemma Color_eqb_flip (a b : Color) :
  Color_eqb (flip a) (flip b) = Color_eqb a b.
Proof. by destruct a, b. Qed.

Lemma Pos_eqb_mirror (p q : Pos) : Pos_eqb (mirror p) (mirror q) = Pos_eqb p q.
Proof.
  unfold Pos_eqb, mirror. simpl.
  destruct (Z.eqb_spec (7 - fst p) (7 - fst q)), (Z.eqb_spec (fst p) (fst q));
    try done; lia.
Qed.

Lemma step_or_zero_mirror (a b : Z) :
  step_or_zero (7 - a) (7 - b) = - step_or_zero a b.
Proof.
  unfold step_or_zero.
  destruct (Z.eqb_spec (7 - a) (7 - b)), (Z.eqb_spec a b); try lia.
  destruct (Z.gtb_spec (7 - b) (7 - a)), (Z.gtb_spec b a); lia.
Qed.

Lemma step_nonzero_mirror (a b : Z) :
  a <> b -> step_nonzero (7 - a) (7 - b) = - step_nonzero a b.
Proof.
  intros Hab. unfold step_nonzero.
  destruct (Z.gtb_spec (7 - b) (7 - a)), (Z.gtb_spec b a); lia.
Qed.

Section Mirror.
Context {B B' : Type} {c : BoardLike B} {c' : BoardLike B'}.
Context (b : B) (b' : B') (Hm : mirrored b b').

Lemma free_or_enemy_mirror (self : Piece) (e : Pos) :
  free_or_enemy (flip_piece self) b' (mirror e) = free_or_enemy self b e.
Proof.
  destruct (Hm e) as [Ho Hg]. unfold free_or_enemy. rewrite Ho, Hg.
  destruct (is_occupied b e) as [[|]|]; try done. simpl.
  destruct (get_piece b e) as [[q|]|]; try done. simpl.
  by rewrite Color_eqb_flip.
Qed.

Lemma walk_mirror (fuel : nat) (cur step e : Pos) :
  walk fuel b' (mirror cur) (- fst step, snd step) (mirror e)
  = walk fuel b cur step e.
Proof.
  revert cur. induction fuel as [|fuel IH]; intros cur; simpl walk;
    rewrite Pos_eqb_mirror; [done|].
  destruct (Pos_eqb cur e); [done|].
  destruct (Hm cur) as [-> _].
  destruct (is_occupied b cur) as [[|]|]; try done.
  rewrite <- IH. f_equal. unfold mirror. simpl. f_equal. lia.
Qed.

Lemma slide_mirror (fuel : nat) (self : Piece) (s step e : Pos) :
  slide fuel (flip_piece self) b' (mirror s) (- fst step, snd step) (mirror e)
  = slide fuel self b s step e.
Proof.
  unfold slide.
  replace (fst (mirror s) + fst (- fst step, snd step),
           snd (mirror s) + snd (- fst step, snd step))
    with (mirror (fst s + fst step, snd s + snd step))
    by (unfold mirror; simpl; f_equal; lia).
  by rewrite walk_mirror, free_or_enemy_mirror.
Qed.

(** The rules do not favour a colour: seen from the other side of the
    board with the colours exchanged, every piece gets the answer it got,
    so that Black's pawns move down the board as White's move up it, from
    row 6 as White's from row 1.  (A bishop asked about its own square is
    left out: its walk goes the same way on both sides.) *)
Theorem can_move_mirror (fuel : nat) (self : Piece) (s e : Pos) :
  (kind self = Bishop -> s <> e) ->
  can_move fuel (flip_piece self) b' (mirror s) (mirror e)
  = can_move fuel self b s e.
Proof.
  intros Hb. unfold can_move. simpl kind. destruct (kind self) eqn:Hk.
  - f_equal. destruct s as [sr sc], e as [er ec].
    unfold King.can_move, mirror. simpl fst; simpl snd.
    replace (7 - er - (7 - sr)) with (- (er - sr)) by lia. rewrite Z.abs_opp.
    destruct (_ && _); [|done]. apply (free_or_enemy_mirror self (er, ec)).
  - destruct s as [sr sc], e as [er ec].
    unfold Queen.can_move, mirror. simpl fst; simpl snd.
    replace (7 - er - (7 - sr)) with (- (er - sr)) by lia. rewrite Z.abs_opp.
    replace (7 - sr =? 7 - er) with (sr =? er)
      by (destruct (Z.eqb_spec sr er), (Z.eqb_spec (7 - sr) (7 - er)); lia || done).
    destruct (_ || _ || _); [|done].
    rewrite step_or_zero_mirror.
    apply (slide_mirror fuel self (sr, sc)
             (step_or_zero sr er, step_or_zero sc ec) (er, ec)).
  - destruct s as [sr sc], e as [er ec].
    unfold Rook.can_move, mirror. simpl fst; simpl snd.
    replace (7 - sr =? 7 - er) with (sr =? er)
      by (destruct (Z.eqb_spec sr er), (Z.eqb_spec (7 - sr) (7 - er)); lia || done).
    destruct (_ || _); [|done].
    rewrite step_or_zero_mirror.
    apply (slide_mirror fuel self (sr, sc)
             (step_or_zero sr er, step_or_zero sc ec) (er, ec)).
  - specialize (Hb eq_refl). destruct s as [sr sc], e as [er ec].
    unfold Bishop.can_move, mirror. simpl fst; simpl snd.
    replace (7 - er - (7 - sr)) with (- (er - sr)) by lia. rewrite Z.abs_opp.
    destruct (Z.eqb_spec (Z.abs (er - sr)) (Z.abs (ec - sc))) as [Hd|]; [|done].
    assert (sr <> er) as Hr.
    { intros ->. apply Hb. f_equal. lia. }
    rewrite step_nonzero_mirror by done.
    apply (slide_mirror fuel self (sr, sc)
             (step_nonzero sr er, step_nonzero sc ec) (er, ec)).
  - f_equal. destruct s as [sr sc], e as [er ec].
    unfold Knight.can_move, mirror. simpl fst; simpl snd.
    replace (7 - er - (7 - sr)) with (- (er - sr)) by lia. rewrite Z.abs_opp.
    destruct (_ || _); [|done]. apply (free_or_enemy_mirror self (er, ec)).
  - f_equal. destruct s as [sr sc], e as [er ec].
    destruct (Hm (er, ec)) as [Hoe Hge].
    unfold Pawn.can_move, Pawn.on_home_row, mirror, flip_piece in *.
    simpl fst in *; simpl snd in *. simpl color.
    rewrite Hoe, Hge.
    destruct (color self); simpl Color_eqb; simpl flip; cbv iota.
    + destruct (Hm (sr + 1, sc)) as [Hom _]. unfold mirror in Hom.
      simpl fst in Hom; simpl snd in Hom.
      replace (7 - sr + -1) with (7 - (sr + 1)) by lia. rewrite Hom.
      replace (7 - (sr + 1) =? 7 - er) with (sr + 1 =? er)
        by (destruct (Z.eqb_spec (sr + 1) er), (Z.eqb_spec (7 - (sr + 1)) (7 - er));
            lia || done).
      replace (7 - sr + 2 * -1 =? 7 - er) with (sr + 2 * 1 =? er)
        by (destruct (Z.eqb_spec (sr + 2 * 1) er),
              (Z.eqb_spec (7 - sr + 2 * -1) (7 - er)); lia || done).
      replace (7 - sr =? 6) with (sr =? 1)
        by (destruct (Z.eqb_spec sr 1), (Z.eqb_spec (7 - sr) 6); lia || done).
      simpl andb; simpl orb. rewrite !orb_false_r.
      destruct (sc =? ec); [done|]. destruct (_ && _); [|done].
      destruct (get_piece b (er, ec)) as [[q|]|]; try done. simpl.
      by destruct (color q).
    + destruct (Hm (sr + -1, sc)) as [Hom _]. unfold mirror in Hom.
      simpl fst in Hom; simpl snd in Hom.
      replace (7 - sr + 1) with (7 - (sr + -1)) by lia. rewrite Hom.
      replace (7 - (sr + -1) =? 7 - er) with (sr + -1 =? er)
        by (destruct (Z.eqb_spec (sr + -1) er),
              (Z.eqb_spec (7 - (sr + -1)) (7 - er)); lia || done).
      replace (7 - sr + 2 * 1 =? 7 - er) with (sr + 2 * -1 =? er)
        by (destruct (Z.eqb_spec (sr + 2 * -1) er),
              (Z.eqb_spec (7 - sr + 2 * 1) (7 - er)); lia || done).
      replace (7 - sr =? 1) with (sr =? 6)
        by (destruct (Z.eqb_spec sr 6), (Z.eqb_spec (7 - sr) 1); lia || done).
      simpl andb; simpl orb. rewrite !orb_false_r.
      destruct (sc =? ec); [done|]. destruct (_ && _); [|done].
      destruct (get_piece b (er, ec)) as [[q|]|]; try done. simpl.
      by destruct (color q).
Qed.
End Mirror.

Lemma in_range_mirror (p : Pos) : in_range (mirror p) = in_range p.
Proof.
  destruct (in_range p) eqn:Hp.
  - apply in_range_spec in Hp. apply in_range_spec. unfold mirror. simpl. lia.
  - destruct (in_range (mirror p)) eqn:Hm; [|done].
    apply in_range_spec in Hm. unfold mirror in Hm. simpl in Hm.
    assert (in_range p = true) by (apply in_range_spec; lia). congruence.
Qed.

Lemma starting_position_mirrored :
  mirrored (c := completed) (c' := completed)
    (Board.mk starting_position) (Board.mk starting_position).
Proof.
  intros p. simpl. unfold square. rewrite in_range_mirror.
  destruct (in_range p) eqn:Hp; [|done].
  apply in_range_spec in Hp as [Hr Hc]. destruct p as [r c]. simpl in *.
  assert (r = 0 \/ r = 1 \/ r = 2 \/ r = 3 \/ r = 4 \/ r = 5 \/ r = 6 \/ r = 7)
    as [->|[->|[->|[->|[->|[->|[->| ->]]]]]]] by lia;
    assert (c = 0 \/ c = 1 \/ c = 2 \/ c = 3 \/ c = 4 \/ c = 5 \/ c = 6 \/ c = 7)
      as [->|[->|[->|[->|[->|[->|[->| ->]]]]]]] by lia;
    split; reflexivity.
Qed.

Lemma can_move_mirror_witness :
  mirrored (c := completed) (c' := completed)
    (Board.mk starting_position) (Board.mk starting_position)
  /\ can_move (cls := completed) 0 (mkPiece Pawn BLACK) (Board.mk starting_position)
       (6, 4) (4, 4)
     = can_move (cls := completed) 0 (mkPiece Pawn WHITE) (Board.mk starting_position)
         (1, 4) (3, 4).
Proof.
  split; [apply starting_position_mirrored|].
  apply (can_move_mirror (c := completed) (c' := completed)
           (Board.mk starting_position) (Board.mk starting_position)
           starting_position_mirrored 0 (mkPiece Pawn WHITE) (1, 4) (3, 4)).
  discriminate.
Defined.

(** A pawn that stands on the far rank (row 7 for White, row 0 for Black)
    has no valid move, whatever the board's queries answer: its one step
    forward leaves the grid. *)
Theorem pawn_on_far_rank_is_stuck (cls : BoardLike Board.t) (fuel : nat)
    (self : Board.t) (s e : Pos) (c : Color) :
  square (Board.board self) s = Some (Some (mkPiece Pawn c)) ->
  fst s = (if c is WHITE then 7 else 0) ->
  Board.is_valid_move cls fuel self s e <> Some (Ret true).
Proof.
  intros Hsq Hrow (Hs & He & piece & Hget & Hcan & _)%is_valid_move_true_inv.
  assert (piece = mkPiece Pawn c) as ->.
  { unfold square in Hsq. rewrite Hs in Hsq. unfold getitem2, getitem in Hget.
    apply in_range_spec in Hs as [Hr Hc].
    destruct (Board.board self !! Z.to_nat (fst s)) as [row|] eqn:Hrow'; [|done].
    simpl in Hsq.
    assert (0 <= fst s < Z.of_nat (length (Board.board self))) as Hlen.
    { apply lookup_lt_Some in Hrow'. lia. }
    rewrite norm_index_in_range in Hget by done. simpl in Hget.
    rewrite Hrow' in Hget. simpl in Hget.
    assert (0 <= snd s < Z.of_nat (length row)) as Hlen'.
    { apply lookup_lt_Some in Hsq. lia. }
    rewrite norm_index_in_range in Hget by done. simpl in Hget.
    rewrite Hsq in Hget. congruence. }
  unfold can_move in Hcan. simpl in Hcan. injection Hcan as Hcan.
  apply Pawn_moves_forward in Hcan. simpl in Hcan.
  apply in_range_spec in He as [Hr _].
  destruct c; simpl in *; lia.
Qed.

Lemma pawn_on_far_rank_is_stuck_witness :
  square (<[0%nat := pawn_rank BLACK]> starting_position) (0, 3)
  = Some (Some (mkPiece Pawn BLACK))
  /\ Board.is_valid_move completed 1
       (Board.mk (<[0%nat := pawn_rank BLACK]> starting_position)) (0, 3) (-1, 3)
     <> Some (Ret true).
Proof.
  assert (square (<[0%nat := pawn_rank BLACK]> starting_position) (0, 3)
          = Some (Some (mkPiece Pawn BLACK))) as Hsq by (vm_compute; reflexivity).
  split; [exact Hsq|].
  exact (pawn_on_far_rank_is_stuck completed 1
           (Board.mk (<[0%nat := pawn_rank BLACK]> starting_position))
           (0, 3) (-1, 3) BLACK Hsq eq_refl).
Defined.

Lemma even_abs (x : Z) : Z.even (Z.abs x) = Z.even x.
Proof.
  destruct (Z.abs_eq_or_opp x) as [->| ->]; [done|]. by rewrite Z.even_opp.
Qed.

(** On any board, a bishop that may move stays on squares of one colour
    and a knight that may move changes the colour of its square. *)
Theorem bishop_keeps_knight_changes_colour {B : Type} {cls : BoardLike B}
    (fuel : nat) (self : Piece) (board : B) (s e : Pos) :
  can_move fuel self board s e = Some (Ret true) ->
  (kind self = Bishop -> Z.even (fst e + snd e) = Z.even (fst s + snd s))
  /\ (kind self = Knight -> Z.even (fst e + snd e) = negb (Z.even (fst s + snd s))).
Proof.
  unfold can_move. intros Hc.
  split; intros Hk; rewrite Hk in Hc.
  - apply Bishop_moves_diagonally in Hc as [Hd _].
    destruct s as [sr sc], e as [er ec]. unfold same_diagonal in Hd. simpl in *.
    replace (er + ec) with ((sr + sc) + ((er - sr) + (ec - sc))) by lia.
    rewrite Z.even_add.
    assert (Z.even ((er - sr) + (ec - sc)) = true) as ->; [|by destruct (Z.even _)].
    rewrite Z.even_add, <- (even_abs (er - sr)), <- (even_abs (ec - sc)), Hd.
    by destruct (Z.even _).
  - injection Hc as Hc. apply Knight_moves_in_L in Hc as Hg.
    destruct s as [sr sc], e as [er ec]. simpl in *.
    replace (er + ec) with ((sr + sc) + ((er - sr) + (ec - sc))) by lia.
    rewrite Z.even_add.
    assert (Z.even ((er - sr) + (ec - sc)) = false) as ->; [|by destruct (Z.even _)].
    rewrite Z.even_add, <- (even_abs (er - sr)), <- (even_abs (ec - sc)).
    destruct Hg as [[-> ->]|[-> ->]]; done.
Qed.

Lemma bishop_keeps_knight_changes_colour_witness :
  can_move (cls := completed) 0 (mkPiece Knight WHITE) (Board.mk starting_position)
    (0, 1) (2, 2) = Some (Ret true)
  /\ Z.even (2 + 2) = negb (Z.even (0 + 1)).
Proof.
  assert (can_move (cls := completed) 0 (mkPiece Knight WHITE)
            (Board.mk starting_position) (0, 1) (2, 2) = Some (Ret true)) as Hc
    by (vm_compute; reflexivity).
  split; [exact Hc|].
  apply (proj2 (bishop_keeps_knight_changes_colour 0 (mkPiece Knight WHITE)
                  (Board.mk starting_position) (0, 1) (2, 2) Hc)).
  reflexivity.
Defined.
